(** * ChatGPT-to-KoboldAI-horde proxy: a shallow embedding of [main.go]

    The proxy accepts OpenAI-style chat and completion requests, turns them
    into a job for the KoboldAI horde, polls the horde until the job is done
    and turns the result back into an OpenAI-style response.

    The embedding follows [main.go] function by function.  Code that talks to
    the outside (network, clock, uuid generator, standard streams, the HTTP
    response writer) is an interaction tree over the events of [ioE]; the
    endless [for] of [pollKoboldAPI] is [ITree.iter].  Programs are executed
    by [run] against a [World] that answers the events, and every property
    below is a statement about what [run] returns and which events it
    recorded. *)

From Stdlib Require Import String Ascii ZArith List Lia Bool Arith DecimalString.
From Stdlib Require Import Floats.SpecFloat.
From ITree Require Import ITree Eq.Shallow.
Import ITreeNotations ListNotations.

Local Open Scope list_scope.
Local Open Scope itree_scope.
Local Open Scope string_scope.

#[local] Set Warnings "-register-all".

(** ** Go values *)

(** A Go [string] is a sequence of bytes, and [len] counts bytes: this is
    Rocq's [string] with [String.length].  Go's [int] has 64 bits on the
    64-bit platforms; it is modelled by [Z], and the one addition of the
    program, [addInt], wraps around as Go's does.  An [error] is represented
    by the text its [Error()] method returns, which is all the program ever
    asks of one. *)
Definition error := string.
Definition float64 := spec_float.
Definition float32 := spec_float.

Definition wrapInt (z : Z) : Z := ((z + 2 ^ 63) mod 2 ^ 64 - 2 ^ 63)%Z.
Definition addInt (a b : Z) : Z := wrapInt (a + b).

Definition len (s : string) : Z := Z.of_nat (String.length s).

(** The newline character written [\n] in Go string literals. *)
Definition nl : string := String (ascii_of_nat 10) EmptyString.

(** ** Data model: the structs of main.go, one module per struct *)

Module OpenAIChatMessage.
Record t := mk { Role : string; Content : string }.
End OpenAIChatMessage.
Definition openAIChatMessage := OpenAIChatMessage.t.

Module OpenAIChatRequest.
Record t := mk { Model : string; Messages : list openAIChatMessage }.
End OpenAIChatRequest.
Definition openAIChatRequest := OpenAIChatRequest.t.

Module OpenAICompletionRequest.
Record t := mk {
    Model : string;
    Prompt : string;
    MaxTokens : Z;
    Temperature : float64;
    TopP : float64;
    N : Z;
    Stream : bool;
    Logprobs : option Z;
    Stop : list string
  }.
End OpenAICompletionRequest.
Definition openAICompletionRequest := OpenAICompletionRequest.t.

Module Generation.
Record t := mk {
    WorkerID : string;
    WorkerName : string;
    Model : string;
    State : string;
    Text : string;
    Seed : Z
  }.
End Generation.
Definition generation := Generation.t.

Module OpenAIUsage.
Record t := mk { PromptTokens : Z; CompletionTokens : Z; TotalTokens : Z }.
End OpenAIUsage.
Definition openAIUsage := OpenAIUsage.t.

Module OpenAIChatChoice.
Record t := mk {
    Index : Z;
    Message : openAIChatMessage;
    FinishReason : string
  }.
End OpenAIChatChoice.
Definition openAIChatChoice := OpenAIChatChoice.t.

Module OpenAIChatResponse.
Record t := mk {
    ID : string;
    Object : string;
    Created : Z;
    Choices : list openAIChatChoice;
    Usage : openAIUsage
  }.
End OpenAIChatResponse.
Definition openAIChatResponse := OpenAIChatResponse.t.

(** A value held in an [interface{}]; the program only ever stores [nil]
    ([None]) in the one field of that type. *)
Variant goValue := GoInt (z : Z) | GoString (s : string) | GoBool (b : bool).

Module OpenAICompletionChoice.
Record t := mk {
    Text : string;
    Index : Z;
    Logprobs : option goValue;
    FinishReason : string
  }.
End OpenAICompletionChoice.
Definition openAICompletionChoice := OpenAICompletionChoice.t.

Module OpenAICompletionResponse.
Record t := mk {
    ID : string;
    Object : string;
    Created : Z;
    Model : string;
    Choices : list openAICompletionChoice;
    Usage : openAIUsage
  }.
End OpenAICompletionResponse.
Definition openAICompletionResponse := OpenAICompletionResponse.t.

Module Params.
Record t := mk { MaxContextLength : Z; MaxLength : Z }.
End Params.
Definition params := Params.t.

Module KoboldAIRequest.
Record t := mk {
    Prompt : string;
    Models : list string;
    TrustedWorkers : bool;
    Params : params
  }.
End KoboldAIRequest.
Definition koboldAIRequest := KoboldAIRequest.t.

Module KoboldAIPollResponse.
Record t := mk {
    Finished : Z;
    Processing : Z;
    Restarted : Z;
    Waiting : Z;
    Done : bool;
    Faulted : bool;
    WaitTime : Z;
    QueuePosition : Z;
    Kudos : float32;
    IsPossible : bool;
    Generations : list generation
  }.
(** The zero value [koboldAIPollResponse{}]. *)
Definition zero : t :=
    mk 0 0 0 0 false false 0 0 (S754_zero false) false [].
End KoboldAIPollResponse.
Definition koboldAIPollResponse := KoboldAIPollResponse.t.

Module KoboldAIAsyncResponse.
Record t := mk { ID : string; Message : string }.
End KoboldAIAsyncResponse.
Definition koboldAIAsyncResponse := KoboldAIAsyncResponse.t.

Definition koboldAPIURL : string :=
  "https://horde.koboldai.net/api/v2/generate/text/async".
Definition koboldStatusURL : string :=
  "https://horde.koboldai.net/api/v2/generate/text/status/".
Definition defaultAPIKey : string := "0000000000".

(** ** The Go libraries the program calls *)

(** [net/http] requests and responses, as far as the program touches them. *)
Module HttpRequest.
Record t := mk {
    Method : string;
    URL : string;
    Header : list (string * list string);
    Body : string
  }.
End HttpRequest.
Definition httpRequest := HttpRequest.t.

Module HttpResponse.
Record t := mk { StatusCode : Z; Body : string }.
End HttpResponse.
Definition httpResponse := HttpResponse.t.

Definition StatusBadRequest : Z := 400.
Definition StatusInternalServerError : Z := 500.

(** [time.Second], in nanoseconds. *)
Definition Second : Z := 1000000000.

(** The pure library functions: the JSON codec of [encoding/json] at the
    types the program uses it at, [http.NewRequest], the canonical form of a
    header name, and the name of the source file that [runtime.Caller]
    reports.  They are not code of this repository and stay abstract. *)
Record GoLib := {
  jsonMarshal : koboldAIRequest -> error + string;
  jsonDecodeChatRequest : string -> error + openAIChatRequest;
  jsonDecodeCompletionRequest : string -> error + openAICompletionRequest;
  jsonDecodeAsyncResponse : string -> error + koboldAIAsyncResponse;
  jsonDecodePollResponse : string -> error + koboldAIPollResponse;
  httpNewRequest : string -> string -> string -> error + httpRequest;
  canonicalMIMEHeaderKey : string -> string;
  sourceFile : string
}.

(** What is handed to [fmt]: the verbs are not interpreted, a formatted
    message is the format string with its arguments. *)
Inductive fmtArg :=
| FStr (s : string)
| FInt (z : Z)
| FErr (e : error)
| FKoboldReq (r : koboldAIRequest)
| FAsyncResp (r : koboldAIAsyncResponse)
| FPollResp (r : koboldAIPollResponse)
| FChatResp (r : openAIChatResponse)
| FSprintf (format : string) (args : list fmtArg).

Variant stream := Stdout | Stderr.

(** What [json.NewEncoder(w).Encode] is given. *)
Variant payload :=
| ChatPayload (r : openAIChatResponse)
| CompletionPayload (r : openAICompletionResponse).

(** The events of the program, indexed by the type of their answer. *)
Variant ioE : Type -> Type :=
| Fprintf (f : stream) (format : string) (args : list fmtArg) : ioE unit
| Fprintln (f : stream) (args : list fmtArg) : ioE unit
| ClientDo (req : httpRequest) : ioE (error + httpResponse)
| HttpGet (url : string) : ioE (error + httpResponse)
| BodyClose (resp : httpResponse) : ioE unit
| Sleep (d : Z) : ioE unit
| NewUUID : ioE string
| TimeNowUnix : ioE Z
| HeaderSet (key value : string) : ioE unit
| HttpError (msg : string) (code : Z) : ioE unit
| Encode (p : payload) : ioE unit
| Panic (msg : string) : ioE Empty_set.

Definition prog := itree ioE.

Definition do {X} (e : ioE X) : prog X := ITree.trigger e.

Definition panic {X} (msg : string) : prog X :=
  v <- do (Panic msg);; match v : Empty_set with end.

(** [xs[i]] on a slice: the element, or the run-time panic. *)
Definition sliceIndex {X} (xs : list X) (i : nat) : prog X :=
  match nth_error xs i with
  | Some x => Ret x
  | None =>
      panic ("runtime error: index out of range ["
             ++ NilEmpty.string_of_uint (Nat.to_uint i) ++ "] with length "
             ++ NilEmpty.string_of_uint (Nat.to_uint (List.length xs)))
  end.

(** [Header.Set] and [Header.Get] on a [map[string][]string]. *)
Definition headerSet (L : GoLib) (h : list (string * list string))
    (key value : string) : list (string * list string) :=
  let k := canonicalMIMEHeaderKey L key in
  (k, [value]) :: filter (fun kv => negb (String.eqb (fst kv) k)) h.

Definition headerGet (L : GoLib) (h : list (string * list string))
    (key : string) : string :=
  let k := canonicalMIMEHeaderKey L key in
  match find (fun kv => String.eqb (fst kv) k) h with
  | Some (_, v :: _) => v
  | _ => ""
  end.

(** [strings.TrimPrefix]. *)
Definition TrimPrefix (s pre : string) : string :=
  if String.prefix pre s
  then String.substring (String.length pre) (String.length s - String.length pre) s
  else s.

(** An inbound request as a handler sees it. *)
Module Request.
Record t := mk { Header : list (string * list string); Body : string }.
End Request.

(** ** Schema mapper *)

Definition convertOpenAIChatRequestToKobold (chatReq : openAIChatRequest)
    : koboldAIRequest :=
  let prompt :=
    fold_left
      (fun prompt message =>
         prompt ++ (((OpenAIChatMessage.Role message ++ ": ")
                       ++ OpenAIChatMessage.Content message) ++ nl))
      (OpenAIChatRequest.Messages chatReq) "" in
  KoboldAIRequest.mk
    prompt
    [OpenAIChatRequest.Model chatReq]
    false
    (Params.mk 1024 100).

Definition convertOpenAICompletionRequestToKobold
    (completionReq : openAICompletionRequest) : koboldAIRequest :=
  KoboldAIRequest.mk
    (OpenAICompletionRequest.Prompt completionReq)
    [OpenAICompletionRequest.Model completionReq]
    false
    (Params.mk 1024 (OpenAICompletionRequest.MaxTokens completionReq)).

Definition convertKoboldResponseToOpenAIChatResponse
    (koboldResp : koboldAIPollResponse) : prog openAIChatResponse :=
  g <- sliceIndex (KoboldAIPollResponse.Generations koboldResp) 0;;
  let responseText := Generation.Text g in
  let assistantMessage := OpenAIChatMessage.mk "assistant" responseText in
  id <- do NewUUID;;
  now <- do TimeNowUnix;;
  g1 <- sliceIndex (KoboldAIPollResponse.Generations koboldResp) 0;;
  g2 <- sliceIndex (KoboldAIPollResponse.Generations koboldResp) 0;;
  Ret (OpenAIChatResponse.mk
         id
         "chat.completion"
         now
         [OpenAIChatChoice.mk 0 assistantMessage "stop"]
         (OpenAIUsage.mk
            (len (Generation.Text g1))
            (len responseText)
            (addInt (len (Generation.Text g2)) (len responseText)))).

Definition convertKoboldResponseToOpenAICompletionResponse
    (koboldResp : koboldAIPollResponse) : prog openAICompletionResponse :=
  g <- sliceIndex (KoboldAIPollResponse.Generations koboldResp) 0;;
  let responseText := Generation.Text g in
  id <- do NewUUID;;
  now <- do TimeNowUnix;;
  Ret (OpenAICompletionResponse.mk
         id
         "text.completion"
         now
         "davinci-codex"
         [OpenAICompletionChoice.mk responseText 0 None "stop"]
         (OpenAIUsage.mk 0 0 0)).

(** ** Downstream client *)

(** [runtime.Caller(0)] reports the file and the line of its own call. *)
Definition Caller (L : GoLib) (line : Z) : string * Z := (sourceFile L, line).

(** The calls put off with [defer], run when the function returns, the one
    deferred last first. *)
Fixpoint runDeferred (deferred : list httpResponse) : prog unit :=
  match deferred with
  | [] => Ret tt
  | resp :: earlier => do (BodyClose resp);; runDeferred earlier
  end.

(** One turn of the [for] of [pollKoboldAPI].  The state of the loop is the
    list of responses whose [Body.Close()] has been deferred so far, newest
    first; the turn either asks for another one ([inl]) or leaves the loop
    with what the function returns ([inr]). *)
Definition pollTurn (L : GoLib) (statusEndpoint : string)
    (deferred : list httpResponse)
    : prog (list httpResponse
            + (koboldAIPollResponse * option error) * list httpResponse) :=
  do (Sleep (2 * Second));;
  r <- do (HttpGet statusEndpoint);;
  match r with
  | inl err =>
      let errMsg := FSprintf "Error polling horde GET: %v" [FErr err] in
      do (Fprintln Stderr [errMsg]);;
      Ret (inr ((KoboldAIPollResponse.zero, Some err), deferred))
  | inr resp =>
      let deferred := resp :: deferred in
      do (Fprintln Stdout [FPollResp KoboldAIPollResponse.zero]);;
      match jsonDecodePollResponse L (HttpResponse.Body resp) with
      | inl err =>
          let errMsg := FSprintf "Error polling horde decode: %v" [FErr err] in
          do (Fprintln Stderr [errMsg]);;
          Ret (inr ((KoboldAIPollResponse.zero, Some err), deferred))
      | inr jsonResponse =>
          do (Fprintf Stdout ("Resp: %+v" ++ nl) [FPollResp jsonResponse]);;
          if KoboldAIPollResponse.Done jsonResponse
          then Ret (inr ((jsonResponse, None), deferred))
          else Ret (inl deferred)
      end
  end.

Definition pollKoboldAPI (L : GoLib) (id : string)
    : prog (koboldAIPollResponse * option error) :=
  let statusEndpoint := koboldStatusURL ++ id in
  '(ret, deferred) <- ITree.iter (pollTurn L statusEndpoint) [];;
  runDeferred deferred;;
  Ret ret.

Definition callKoboldAPI (L : GoLib) (koboldReq : koboldAIRequest)
    (apiKey : string) : prog (koboldAIPollResponse * option error) :=
  do (Fprintf Stdout ("Req: %+v" ++ nl) [FKoboldReq koboldReq]);;
  match jsonMarshal L koboldReq with
  | inl err =>
      let '(file, line) := Caller L 221 in
      let errMsg :=
        FSprintf "Error while marshal request at %s:%d: %v"
                 [FStr file; FInt line; FErr err] in
      do (Fprintln Stderr [errMsg]);;
      Ret (KoboldAIPollResponse.zero, Some err)
  | inr reqBody =>
  match httpNewRequest L "POST" koboldAPIURL reqBody with
  | inl err =>
      let '(file, line) := Caller L 229 in
      let errMsg :=
        FSprintf "Error while creating request at %s:%d: %v"
                 [FStr file; FInt line; FErr err] in
      do (Fprintln Stderr [errMsg]);;
      Ret (KoboldAIPollResponse.zero, Some err)
  | inr req =>
  let req :=
    HttpRequest.mk (HttpRequest.Method req) (HttpRequest.URL req)
      (headerSet L
         (headerSet L (HttpRequest.Header req) "Content-Type" "application/json")
         "apikey" apiKey)
      (HttpRequest.Body req) in
  r <- do (ClientDo req);;
  do (Fprintln Stdout [FStr "Sending request to horde"]);;
  match r with
  | inl err =>
      let '(file, line) := Caller L 242 in
      let errMsg :=
        FSprintf "Error while querying horde at %s:%d: %v"
                 [FStr file; FInt line; FErr err] in
      do (Fprintln Stderr [errMsg]);;
      Ret (KoboldAIPollResponse.zero, Some err)
  | inr resp =>
  ret <-
    match jsonDecodeAsyncResponse L (HttpResponse.Body resp) with
    | inl err =>
        let '(file, line) := Caller L 252 in
        let errMsg :=
          FSprintf "Error occurred at %s:%d: %v"
                   [FStr file; FInt line; FErr err] in
        do (Fprintln Stderr [errMsg]);;
        Ret (KoboldAIPollResponse.zero, Some err)
    | inr jsonResponse =>
        do (Fprintf Stdout ("Resp: %+v" ++ nl) [FAsyncResp jsonResponse]);;
        do (Fprintln Stdout
              [FStr "Polling horde with job id ";
               FStr (KoboldAIAsyncResponse.ID jsonResponse)]);;
        '(result, err) <- pollKoboldAPI L (KoboldAIAsyncResponse.ID jsonResponse);;
        match err with
        | Some err =>
            let errMsg := FSprintf "Error polling horde: %v" [FErr err] in
            do (Fprintln Stderr [errMsg]);;
            Ret (KoboldAIPollResponse.zero, Some err)
        | None => Ret (result, None)
        end
    end;;
  do (BodyClose resp);;
  Ret ret
  end end end.

(** ** Request handlers *)

(** The API key of a request: the [Authorization] header without its
    [Bearer ] prefix, or the default key when there is no such header. *)
Definition apiKeyOf (L : GoLib) (r : Request.t) : string :=
  let apiKey := headerGet L (Request.Header r) "Authorization" in
  if String.eqb apiKey "" then defaultAPIKey else TrimPrefix apiKey "Bearer ".

Definition chatCompletionHandler (L : GoLib) (r : Request.t) : prog unit :=
  let apiKey := apiKeyOf L r in
  match jsonDecodeChatRequest L (Request.Body r) with
  | inl err =>
      do (Fprintf Stderr "Error decoding request body: %v" [FErr err]);;
      do (HttpError err StatusBadRequest)
  | inr chatReq =>
      let koboldReq := convertOpenAIChatRequestToKobold chatReq in
      '(koboldResp, err) <- callKoboldAPI L koboldReq apiKey;;
      match err with
      | Some err =>
          do (Fprintf Stderr "Error calling Kobold API: %v" [FErr err]);;
          do (HttpError err StatusInternalServerError)
      | None =>
          chatResp <- convertKoboldResponseToOpenAIChatResponse koboldResp;;
          do (Fprintln Stdout [FChatResp chatResp]);;
          do (HeaderSet "Content-Type" "application/json");;
          do (Encode (ChatPayload chatResp))
      end
  end.

Definition completionHandler (L : GoLib) (r : Request.t) : prog unit :=
  let apiKey := apiKeyOf L r in
  match jsonDecodeCompletionRequest L (Request.Body r) with
  | inl err =>
      do (Fprintln Stderr [FErr err]);;
      do (HttpError err StatusBadRequest)
  | inr completionReq =>
      let koboldReq := convertOpenAICompletionRequestToKobold completionReq in
      '(koboldResp, err) <- callKoboldAPI L koboldReq apiKey;;
      match err with
      | Some err =>
          do (Fprintln Stderr [FErr err]);;
          do (HttpError err StatusInternalServerError)
      | None =>
          completionResp <-
            convertKoboldResponseToOpenAICompletionResponse koboldResp;;
          do (Encode (CompletionPayload completionResp))
      end
  end.

(** ** Running a program *)

(** An event that happened, without its answer. *)
Definition event := { X : Type & ioE X }.
Definition ev {X} (e : ioE X) : event := existT ioE X e.
Definition trace := list event.

Definition isGet (a : event) : bool :=
  match projT2 a with HttpGet _ => true | _ => false end.
Definition isPost (a : event) : bool :=
  match projT2 a with ClientDo _ => true | _ => false end.
Definition isSleep (a : event) : bool :=
  match projT2 a with Sleep _ => true | _ => false end.
Definition isNewUUID (a : event) : bool :=
  match projT2 a with NewUUID => true | _ => false end.
Definition isTimeNow (a : event) : bool :=
  match projT2 a with TimeNowUnix => true | _ => false end.
Definition isHeaderSet (a : event) : bool :=
  match projT2 a with HeaderSet _ _ => true | _ => false end.
Definition isEncode (a : event) : bool :=
  match projT2 a with Encode _ => true | _ => false end.
(** A call to the downstream service: the submit POST or a status GET. *)
Definition isDownstream (a : event) : bool := isPost a || isGet a.

Definition count (f : event -> bool) (tr : trace) : nat :=
  List.length (filter f tr).

(** The world outside the program: what the [n]-th call of each kind is
    answered.  The horde may answer anything, a transport error included. *)
Record World := {
  clientDoReply : nat -> httpRequest -> error + httpResponse;
  httpGetReply : nat -> string -> error + httpResponse;
  uuid : nat -> string;
  unixTime : nat -> Z
}.

(** The answer to an event, given the events so far; a panic has none. *)
Definition handle (w : World) (tr : trace) {X} (e : ioE X) : option X :=
  match e in ioE X return option X with
  | Fprintf _ _ _ => Some tt
  | Fprintln _ _ => Some tt
  | ClientDo req => Some (clientDoReply w (count isPost tr) req)
  | HttpGet url => Some (httpGetReply w (count isGet tr) url)
  | BodyClose _ => Some tt
  | Sleep _ => Some tt
  | NewUUID => Some (uuid w (count isNewUUID tr))
  | TimeNowUnix => Some (unixTime w (count isTimeNow tr))
  | HeaderSet _ _ => Some tt
  | HttpError _ _ => Some tt
  | Encode _ => Some tt
  | Panic _ => None
  end.

(** How a run ends: the program returned, it panicked, or the fuel given to
    the run was used up before either.  Each carries the events so far. *)
Variant outcome (R : Type) :=
| Returned (r : R) (tr : trace)
| Panicked (tr : trace)
| OutOfFuel (tr : trace).
Arguments Returned {R}.
Arguments Panicked {R}.
Arguments OutOfFuel {R}.

(** [run w fuel t tr] executes [t] in world [w] after the events [tr]; every
    event and every silent step costs one unit of fuel. *)
Fixpoint run {R} (w : World) (fuel : nat) (t : prog R) (tr : trace)
    : outcome R :=
  match fuel with
  | O => OutOfFuel tr
  | S fuel =>
      match observe t with
      | RetF r => Returned r tr
      | TauF t' => run w fuel t' tr
      | VisF e k =>
          match handle w tr e with
          | Some x => run w fuel (k x) (tr ++ [ev e])%list
          | None => Panicked (tr ++ [ev e])%list
          end
      end
  end.

(** A run that was not cut short by the fuel. *)
Definition final {R} (o : outcome R) : Prop :=
  match o with OutOfFuel _ => False | _ => True end.

(** [evaluates w t tr o]: with enough fuel, and then with any larger amount,
    running [t] after the events [tr] ends as [o]. *)
Definition evaluates {R} (w : World) (t : prog R) (tr : trace)
    (o : outcome R) : Prop :=
  exists fuel0, forall fuel, fuel0 <= fuel -> run w fuel t tr = o.

(** The events of an outcome. *)
Definition traceOf {R} (o : outcome R) : trace :=
  match o with Returned _ tr | Panicked tr | OutOfFuel tr => tr end.

(** [emits P w t tr]: however long [t] runs after [tr], it only adds events
    that satisfy [P]. *)
Definition emits {R} (P : event -> bool) (w : World) (t : prog R)
    (tr : trace) : Prop :=
  forall fuel, exists ext,
    traceOf (run w fuel t tr) = (tr ++ ext)%list /\ forallb P ext = true.

(** The same, for runs of at most [bound] units of fuel. *)
Definition emitsUpTo {R} (bound : nat) (P : event -> bool) (w : World)
    (t : prog R) (tr : trace) : Prop :=
  forall fuel, fuel <= bound -> exists ext,
    traceOf (run w fuel t tr) = (tr ++ ext)%list /\ forallb P ext = true.

(** ** The properties, in the words of the specification *)

(** The prompt of a chat: each message as [<role>: <content>\n], in order. *)
Definition messageLine (m : openAIChatMessage) : string :=
  OpenAIChatMessage.Role m ++ ": " ++ OpenAIChatMessage.Content m ++ nl.

Fixpoint concatLines (msgs : list openAIChatMessage) : string :=
  match msgs with
  | [] => ""
  | m :: rest => messageLine m ++ concatLines rest
  end.

(** The [i]-th status GET for [url] is answered, and the answer decodes to
    the status [sts i]. *)
Definition decodedPoll (L : GoLib) (w : World) (url : string)
    (sts : nat -> koboldAIPollResponse) (i : nat) : Prop :=
  exists resp,
    httpGetReply w i url = inr resp
    /\ jsonDecodePollResponse L (HttpResponse.Body resp) = inr (sts i).

(** [k] is the first status of the sequence whose [done] flag is set. *)
Definition firstDone (sts : nat -> koboldAIPollResponse) (k : nat) : Prop :=
  KoboldAIPollResponse.Done (sts k) = true
  /\ forall i, i < k -> KoboldAIPollResponse.Done (sts i) = false.

(** The events of the downstream client: the standard streams, the submit
    POST, the status GETs with their sleeps, and the deferred closes. *)
Definition isClientEvent (a : event) : bool :=
  match projT2 a with
  | Fprintf _ _ _ | Fprintln _ _ | ClientDo _ | HttpGet _ | BodyClose _
  | Sleep _ => true
  | _ => false
  end.

(** The events of the two job-to-response conversions. *)
Definition isConvertEvent (a : event) : bool :=
  match projT2 a with
  | NewUUID | TimeNowUnix | Panic _ => true
  | _ => false
  end.

(** The request that [callKoboldAPI] submits, once [http.NewRequest] has
    built [req]: the two headers set. *)
Definition submitted (L : GoLib) (req : httpRequest) (apiKey : string)
    : httpRequest :=
  HttpRequest.mk (HttpRequest.Method req) (HttpRequest.URL req)
    (headerSet L
       (headerSet L (HttpRequest.Header req) "Content-Type" "application/json")
       "apikey" apiKey)
    (HttpRequest.Body req).

(** The events of one turn of the poll loop that decodes the status [st]. *)
Definition turnEvents (url : string) (st : koboldAIPollResponse) : trace :=
  [ev (Sleep (2 * Second));
   ev (HttpGet url);
   ev (Fprintln Stdout [FPollResp KoboldAIPollResponse.zero]);
   ev (Fprintf Stdout ("Resp: %+v" ++ nl) [FPollResp st])].

(** The events of a handler that answers with an error. *)
Definition isErrorReplyEvent (a : event) : bool :=
  match projT2 a with
  | Fprintf _ _ _ | Fprintln _ _ | HttpError _ _ => true
  | _ => false
  end.

(** ** A library and two worlds to run the program on *)

Definition testGeneration (text : string) : generation :=
  Generation.mk "w-1" "worker" "m" "ok" text 7.

Definition testStatus (done faulted : bool) (gens : list generation)
    : koboldAIPollResponse :=
  KoboldAIPollResponse.mk 0 0 0 0 done faulted 0 0 (S754_zero false) true gens.

(** The test codec reads a few fixed bodies and rejects the rest. *)
Definition testLib : GoLib := {|
  jsonMarshal := fun r => inr (KoboldAIRequest.Prompt r);
  jsonDecodeChatRequest := fun body =>
    if String.eqb body "chat"
    then inr (OpenAIChatRequest.mk "m" [OpenAIChatMessage.mk "user" "Hi"])
    else inl "invalid character";
  jsonDecodeCompletionRequest := fun body =>
    if String.eqb body "completion"
    then inr (OpenAICompletionRequest.mk "m" "Hi" 50
                (S754_zero false) (S754_zero false) 0 false None [])
    else inl "invalid character";
  jsonDecodeAsyncResponse := fun body => inr (KoboldAIAsyncResponse.mk body "");
  jsonDecodePollResponse := fun body =>
    if String.eqb body "done"
    then inr (testStatus true false [testGeneration "World"])
    else if String.eqb body "faulted"
    then inr (testStatus false true [])
    else if String.eqb body "empty"
    then inr (testStatus true false [])
    else inl "unexpected end of JSON input";
  httpNewRequest := fun method url body => inr (HttpRequest.mk method url [] body);
  canonicalMIMEHeaderKey := fun key => key;
  sourceFile := "main.go"
|}.

(** The horde accepts the job, answers the first status GET with a faulted,
    unfinished status and every later one with the finished job. *)
Definition testWorld : World := {|
  clientDoReply := fun _ _ => inr (HttpResponse.mk 200 "job-1");
  httpGetReply := fun n _ =>
    match n with
    | 0 => inr (HttpResponse.mk 200 "faulted")
    | _ => inr (HttpResponse.mk 200 "done")
    end;
  uuid := fun _ => "6ba7b810-9dad-11d1-80b4-00c04fd430c8";
  unixTime := fun _ => 1700000000%Z
|}.

(** The horde cannot be reached. *)
Definition downWorld : World := {|
  clientDoReply := fun _ _ => inl "dial tcp: connection refused";
  httpGetReply := fun _ _ => inl "dial tcp: connection refused";
  uuid := fun _ => "6ba7b810-9dad-11d1-80b4-00c04fd430c8";
  unixTime := fun _ => 1700000000%Z
|}.

Definition testStatuses (i : nat) : koboldAIPollResponse :=
  match i with
  | 0 => testStatus false true []
  | _ => testStatus true false [testGeneration "World"]
  end.

(** The events of a chat request and of a completion request served in
    [testWorld]. *)
Definition testChatRun : trace :=
  traceOf (run testWorld 40
             (chatCompletionHandler testLib (Request.mk [] "chat")) []).

Definition testCompletionRun : trace :=
  traceOf (run testWorld 40
             (completionHandler testLib (Request.mk [] "completion")) []).

(** ** Further vocabulary for traces *)

Definition isBodyClose (a : event) : bool :=
  match projT2 a with BodyClose _ => true | _ => false end.
Definition isHttpError (a : event) : bool :=
  match projT2 a with HttpError _ _ => true | _ => false end.
Definition isPanic (a : event) : bool :=
  match projT2 a with Panic _ => true | _ => false end.
(** Something written to the response of the inbound request. *)
Definition isReplyEvent (a : event) : bool :=
  match projT2 a with
  | HeaderSet _ _ | HttpError _ _ | Encode _ => true
  | _ => false
  end.
(** The events of the poll loop: the client's events but the submit POST. *)
Definition isPollEvent (a : event) : bool :=
  match projT2 a with
  | Fprintf _ _ _ | Fprintln _ _ | HttpGet _ | BodyClose _ | Sleep _ => true
  | _ => false
  end.

(** The deferred closes of the responses [deferred], run in list order. *)
Definition closeEvents (deferred : list httpResponse) : trace :=
  map (fun resp => ev (BodyClose resp)) deferred.

(** A run of turns of the poll loop that each get an unfinished status:
    the GETs numbered [g], [g + 1], ... for [url] are answered with the
    responses of [turns], which decode to the statuses of [turns], none of
    them done. *)
Fixpoint unfinishedTurns (L : GoLib) (w : World) (url : string) (g : nat)
    (turns : list (httpResponse * koboldAIPollResponse)) : Prop :=
  match turns with
  | [] => True
  | (resp, st) :: rest =>
      httpGetReply w g url = inr resp
      /\ jsonDecodePollResponse L (HttpResponse.Body resp) = inr st
      /\ KoboldAIPollResponse.Done st = false
      /\ unfinishedTurns L w url (S g) rest
  end.

(** The events of such turns. *)
Definition turnsTrace (url : string)
    (turns : list (httpResponse * koboldAIPollResponse)) : trace :=
  flat_map (fun turn => turnEvents url (snd turn)) turns.

(** The responses such turns leave to be closed, the newest first. *)
Definition deferredOf (turns : list (httpResponse * koboldAIPollResponse))
    : list httpResponse :=
  rev (map fst turns).

(** The events of a turn whose GET fails, and of a turn whose answer does
    not decode. *)
Definition getFailureEvents (url : string) (err : error) : trace :=
  [ev (Sleep (2 * Second));
   ev (HttpGet url);
   ev (Fprintln Stderr [FSprintf "Error polling horde GET: %v" [FErr err]])].

Definition decodeFailureEvents (url : string) (err : error) : trace :=
  [ev (Sleep (2 * Second));
   ev (HttpGet url);
   ev (Fprintln Stdout [FPollResp KoboldAIPollResponse.zero]);
   ev (Fprintln Stderr [FSprintf "Error polling horde decode: %v" [FErr err]])].

(** The events of [callKoboldAPI] up to the point where it starts to poll
    the job [job], submitted with [req] and accepted with [resp]. *)
Definition submitEvents (koboldReq : koboldAIRequest) (req : httpRequest)
    (job : koboldAIAsyncResponse) : trace :=
  [ev (Fprintf Stdout ("Req: %+v" ++ nl) [FKoboldReq koboldReq]);
   ev (ClientDo req);
   ev (Fprintln Stdout [FStr "Sending request to horde"]);
   ev (Fprintf Stdout ("Resp: %+v" ++ nl) [FAsyncResp job]);
   ev (Fprintln Stdout
         [FStr "Polling horde with job id ";
          FStr (KoboldAIAsyncResponse.ID job)])].

(** The horde accepts the job and answers the first status GET with an
    unfinished status; the second GET fails in transport. *)
Definition flakyWorld : World := {|
  clientDoReply := clientDoReply testWorld;
  httpGetReply := fun n _ =>
    match n with
    | 0 => inr (HttpResponse.mk 200 "faulted")
    | _ => inl "read tcp: connection reset by peer"
    end;
  uuid := uuid testWorld;
  unixTime := unixTime testWorld
|}.

(** The same, but the second GET is answered with a page that is no JSON. *)
Definition garbledWorld : World := {|
  clientDoReply := clientDoReply testWorld;
  httpGetReply := fun n _ =>
    match n with
    | 0 => inr (HttpResponse.mk 200 "faulted")
    | _ => inr (HttpResponse.mk 502 "<html>")
    end;
  uuid := uuid testWorld;
  unixTime := unixTime testWorld
|}.

(** What [callKoboldAPI] makes of the result of the poll loop: the status
    with no error, or the zero status with the error, reported on standard
    error. *)
Definition pollOutcome (st : koboldAIPollResponse) (perr : option error)
    : koboldAIPollResponse * option error :=
  match perr with
  | Some err => (KoboldAIPollResponse.zero, Some err)
  | None => (st, None)
  end.

Definition pollErrorEvents (perr : option error) : trace :=
  match perr with
  | Some err =>
      [ev (Fprintln Stderr [FSprintf "Error polling horde: %v" [FErr err]])]
  | None => []
  end.

(** The horde answers the submit POST with status 403 and no job id, and
    every status GET with status 404 and the finished job. *)
Definition refusingWorld : World := {|
  clientDoReply := fun _ _ => inr (HttpResponse.mk 403 "");
  httpGetReply := fun _ _ => inr (HttpResponse.mk 404 "done");
  uuid := uuid testWorld;
  unixTime := unixTime testWorld
|}.

(** The events of polling the job in [testWorld]. *)
Definition testPollRun : trace :=
  traceOf (run testWorld 20 (pollKoboldAPI testLib "job-1") []).

(** The events of a call of the client in [testWorld]. *)
Definition testCallRun : trace :=
  traceOf (run testWorld 40
             (callKoboldAPI testLib
                (KoboldAIRequest.mk "Hi" ["m"] false (Params.mk 1024 50))
                defaultAPIKey) []).

(** ** What a handler makes of the client's result *)

(** The responses the two conversions build from the generation [g] after
    the events [tr]: the id and the creation time are the next answers of
    the uuid generator and of the clock. *)
Definition chatResponseFor (w : World) (tr : trace) (g : generation)
    : openAIChatResponse :=
  OpenAIChatResponse.mk
    (uuid w (count isNewUUID tr))
    "chat.completion"
    (unixTime w (count isTimeNow tr))
    [OpenAIChatChoice.mk 0
       (OpenAIChatMessage.mk "assistant" (Generation.Text g)) "stop"]
    (OpenAIUsage.mk (len (Generation.Text g)) (len (Generation.Text g))
       (addInt (len (Generation.Text g)) (len (Generation.Text g)))).

Definition completionResponseFor (w : World) (tr : trace) (g : generation)
    : openAICompletionResponse :=
  OpenAICompletionResponse.mk
    (uuid w (count isNewUUID tr))
    "text.completion"
    (unixTime w (count isTimeNow tr))
    "davinci-codex"
    [OpenAICompletionChoice.mk (Generation.Text g) 0 None "stop"]
    (OpenAIUsage.mk 0 0 0).

(** The panic of [xs[0]] on an empty slice. *)
Definition indexPanic : event :=
  ev (Panic "runtime error: index out of range [0] with length 0").

(** How the chat handler ends once the client has returned the status [st]
    and the error [perr] after the events [tr]. *)
Definition chatReplyOutcome (w : World) (st : koboldAIPollResponse)
    (perr : option error) (tr : trace) : outcome unit :=
  match perr with
  | Some err =>
      Returned tt
        (tr ++ [ev (Fprintf Stderr "Error calling Kobold API: %v" [FErr err]);
                ev (HttpError err 500)])%list
  | None =>
      match KoboldAIPollResponse.Generations st with
      | [] => Panicked (tr ++ [indexPanic])%list
      | g :: _ =>
          Returned tt
            (tr ++ [ev NewUUID;
                    ev TimeNowUnix;
                    ev (Fprintln Stdout [FChatResp (chatResponseFor w tr g)]);
                    ev (HeaderSet "Content-Type" "application/json");
                    ev (Encode (ChatPayload (chatResponseFor w tr g)))])%list
      end
  end.

(** The same for the completion handler. *)
Definition completionReplyOutcome (w : World) (st : koboldAIPollResponse)
    (perr : option error) (tr : trace) : outcome unit :=
  match perr with
  | Some err =>
      Returned tt
        (tr ++ [ev (Fprintln Stderr [FErr err]); ev (HttpError err 500)])%list
  | None =>
      match KoboldAIPollResponse.Generations st with
      | [] => Panicked (tr ++ [indexPanic])%list
      | g :: _ =>
          Returned tt
            (tr ++ [ev NewUUID;
                    ev TimeNowUnix;
                    ev (Encode
                          (CompletionPayload (completionResponseFor w tr g)))])%list
      end
  end.

(** The events of the client's call for the test chat request. *)
Definition testChatCallRun : trace :=
  traceOf (run testWorld 40
             (callKoboldAPI testLib
                (convertOpenAIChatRequestToKobold
                   (OpenAIChatRequest.mk "m" [OpenAIChatMessage.mk "user" "Hi"]))
                defaultAPIKey) []).

(** A job that runs to its end: the request is built and submitted as the
    first POST, the horde accepts it with the answer [resp], which decodes to
    [job]; the status GETs are answered with the unfinished statuses of
    [turns] and then with [resp'], which decodes to the finished status
    [st]. *)
Definition jobSucceeds (L : GoLib) (w : World) (koboldReq : koboldAIRequest)
    (apiKey : string) (req : httpRequest) (resp : httpResponse)
    (job : koboldAIAsyncResponse)
    (turns : list (httpResponse * koboldAIPollResponse))
    (resp' : httpResponse) (st : koboldAIPollResponse) : Prop :=
  (exists reqBody,
      jsonMarshal L koboldReq = inr reqBody
      /\ httpNewRequest L "POST" koboldAPIURL reqBody = inr req)
  /\ clientDoReply w 0 (submitted L req apiKey) = inr resp
  /\ jsonDecodeAsyncResponse L (HttpResponse.Body resp) = inr job
  /\ unfinishedTurns L w (koboldStatusURL ++ KoboldAIAsyncResponse.ID job) 0 turns
  /\ httpGetReply w (List.length turns)
       (koboldStatusURL ++ KoboldAIAsyncResponse.ID job) = inr resp'
  /\ jsonDecodePollResponse L (HttpResponse.Body resp') = inr st
  /\ KoboldAIPollResponse.Done st = true.

(** The events of the client for such a job. *)
Definition jobTrace (L : GoLib) (koboldReq : koboldAIRequest)
    (apiKey : string) (req : httpRequest) (resp : httpResponse)
    (job : koboldAIAsyncResponse)
    (turns : list (httpResponse * koboldAIPollResponse))
    (resp' : httpResponse) (st : koboldAIPollResponse) : trace :=
  (submitEvents koboldReq (submitted L req apiKey) job
   ++ turnsTrace (koboldStatusURL ++ KoboldAIAsyncResponse.ID job) turns
   ++ turnEvents (koboldStatusURL ++ KoboldAIAsyncResponse.ID job) st
   ++ closeEvents (resp' :: deferredOf turns)
   ++ [ev (BodyClose resp)])%list.

(** The horde accepts the job and reports it done, without generations. *)
Definition emptyWorld : World := {|
  clientDoReply := clientDoReply testWorld;
  httpGetReply := fun _ _ => inr (HttpResponse.mk 200 "empty");
  uuid := uuid testWorld;
  unixTime := unixTime testWorld
|}.

(** The events of the test chat request served in [emptyWorld]. *)
Definition testPanicRun : trace :=
  traceOf (run emptyWorld 40
             (chatCompletionHandler testLib (Request.mk [] "chat")) []).



Definition strictLib : GoLib := {|
  jsonMarshal := jsonMarshal testLib;
  jsonDecodeChatRequest := jsonDecodeChatRequest testLib;
  jsonDecodeCompletionRequest := jsonDecodeCompletionRequest testLib;
  jsonDecodeAsyncResponse := fun body =>
    if String.eqb body "<html>"
    then inl "invalid character '<' looking for beginning of value"
    else inr (KoboldAIAsyncResponse.mk body "");
  jsonDecodePollResponse := jsonDecodePollResponse testLib;
  httpNewRequest := httpNewRequest testLib;
  canonicalMIMEHeaderKey := canonicalMIMEHeaderKey testLib;
  sourceFile := sourceFile testLib
|}.

(** A gateway in front of the horde answers the submit POST with an HTML
    page. *)
Definition badGatewayWorld : World := {|
  clientDoReply := fun _ _ => inr (HttpResponse.mk 502 "<html>");
  httpGetReply := httpGetReply testWorld;
  uuid := uuid testWorld;
  unixTime := unixTime testWorld
|}.

Definition testKoboldReq : koboldAIRequest :=
  KoboldAIRequest.mk "Hi" ["m"] false (Params.mk 1024 50).

Definition testHttpReq : httpRequest :=
  HttpRequest.mk "POST" koboldAPIURL [] "Hi".

(** The events of polling in [refusingWorld], after the submit POST. *)
Definition testRefusedPollRun : trace :=
  traceOf (run refusingWorld 20 (pollKoboldAPI testLib "")
             (submitEvents testKoboldReq
                (submitted testLib testHttpReq defaultAPIKey)
                (KoboldAIAsyncResponse.mk "" ""))).

(** A job that is accepted: the request is built and submitted as the first
    POST, and the horde's answer [resp] decodes to [job]. *)
Definition jobAccepted (L : GoLib) (w : World) (koboldReq : koboldAIRequest)
    (apiKey : string) (req : httpRequest) (resp : httpResponse)
    (job : koboldAIAsyncResponse) : Prop :=
  (exists reqBody,
      jsonMarshal L koboldReq = inr reqBody
      /\ httpNewRequest L "POST" koboldAPIURL reqBody = inr req)
  /\ clientDoReply w 0 (submitted L req apiKey) = inr resp
  /\ jsonDecodeAsyncResponse L (HttpResponse.Body resp) = inr job.

(** The horde accepts the job and reports it faulted and unfinished for
    ever. *)
Definition faultedWorld : World := {|
  clientDoReply := clientDoReply testWorld;
  httpGetReply := fun _ _ => inr (HttpResponse.mk 200 "faulted");
  uuid := uuid testWorld;
  unixTime := unixTime testWorld
|}.

(** ** Facts about [run] *)

Section Run.
Context (w : World).

Lemma run_observe R (t1 t2 : prog R) n tr :
  observe t1 = observe t2 -> run w n t1 tr = run w n t2 tr.
Proof. intros H. destruct n; simpl; [reflexivity | now rewrite H]. Qed.

Lemma run_S R (t : prog R) n tr :
  run w (S n) t tr
  = match observe t with
    | RetF r => Returned r tr
    | TauF t' => run w n t' tr
    | VisF e k =>
        match handle w tr e with
        | Some x => run w n (k x) (tr ++ [ev e])%list
        | None => Panicked (tr ++ [ev e])%list
        end
    end.
Proof. reflexivity. Qed.

Lemma run_ret R (r : R) n tr : run w (S n) (Ret r) tr = Returned r tr.
Proof. reflexivity. Qed.

Lemma run_tau R (t : prog R) n tr : run w (S n) (Tau t) tr = run w n t tr.
Proof. reflexivity. Qed.

Lemma run_bind_ret X R (x : X) (k : X -> prog R) n tr :
  run w n (ITree.bind (Ret x) k) tr = run w n (k x) tr.
Proof. apply run_observe. reflexivity. Qed.

Lemma run_iter I R (body : I -> prog (I + R)) (i : I) n tr :
  run w n (ITree.iter body i) tr
  = run w n (ITree.bind (body i)
               (fun lr => match lr with
                          | inl l => Tau (ITree.iter body l)
                          | inr r => Ret r
                          end)) tr.
Proof. apply run_observe. reflexivity. Qed.

Lemma run_do_bind X R (e : ioE X) (k : X -> prog R) n tr :
  run w (S n) (ITree.bind (do e) k) tr
  = match handle w tr e with
    | Some x => run w n (k x) (tr ++ [ev e])%list
    | None => Panicked (tr ++ [ev e])%list
    end.
Proof.
  simpl. destruct (handle w tr e) as [x|]; [|reflexivity].
  apply run_bind_ret.
Qed.

(** More fuel does not change a run that ended. *)
Lemma run_mono R (t : prog R) n m tr o :
  run w n t tr = o -> final o -> run w (n + m) t tr = o.
Proof.
  revert t tr. induction n as [|n IH]; intros t tr H Hf.
  - simpl in H. subst o. contradiction.
  - simpl in *. destruct (observe t) as [r|t'|X e k]; auto.
    destruct (handle w tr e); auto.
Qed.

Lemma run_le R (t : prog R) n m tr o :
  run w n t tr = o -> final o -> n <= m -> run w m t tr = o.
Proof.
  intros H Hf Hle. replace m with (n + (m - n)) by lia. now apply run_mono.
Qed.

Lemma run_deterministic R (t : prog R) n m tr o1 o2 :
  run w n t tr = o1 -> final o1 -> run w m t tr = o2 -> final o2 -> o1 = o2.
Proof.
  intros H1 F1 H2 F2.
  rewrite <- (run_le _ _ _ (n + m) _ _ H1 F1) by lia.
  rewrite <- (run_le _ _ _ (n + m) _ _ H2 F2) by lia.
  reflexivity.
Qed.

(** Sequencing: the first part returns, the rest ends. *)
Lemma run_bind X R (t : prog X) (k : X -> prog R) n m tr x tr' o :
  run w n t tr = Returned x tr' ->
  run w m (k x) tr' = o -> final o ->
  run w (n + m) (ITree.bind t k) tr = o.
Proof.
  revert t tr. induction n as [|n IH]; intros t tr Ht Hk Hf; [discriminate|].
  simpl in Ht.
  change (S n + m) with (S (n + m)).
  destruct (observe t) as [r|t'|Y e h] eqn:Hobs.
  - injection Ht as -> ->.
    rewrite run_observe with (t2 := k x).
    + apply run_le with (n := m); auto; lia.
    + rewrite observe_bind, Hobs. reflexivity.
  - rewrite run_observe with (t2 := Tau (ITree.bind t' k))
      by (rewrite observe_bind, Hobs; reflexivity).
    rewrite run_tau. now apply IH.
  - rewrite run_observe with (t2 := Vis e (fun y => ITree.bind (h y) k))
      by (rewrite observe_bind, Hobs; reflexivity).
    simpl. destruct (handle w tr e) as [y|]; [|discriminate].
    now apply IH.
Qed.

(** Sequencing: the first part panics. *)
Lemma run_bind_panicked X R (t : prog X) (k : X -> prog R) n tr tr' :
  run w n t tr = Panicked tr' ->
  run w n (ITree.bind t k) tr = Panicked tr'.
Proof.
  revert t tr. induction n as [|n IH]; intros t tr Ht; [discriminate|].
  simpl in Ht.
  destruct (observe t) as [r|t'|Y e h] eqn:Hobs; [discriminate| |].
  - rewrite run_observe with (t2 := Tau (ITree.bind t' k))
      by (rewrite observe_bind, Hobs; reflexivity).
    rewrite run_tau. now apply IH.
  - rewrite run_observe with (t2 := Vis e (fun y => ITree.bind (h y) k))
      by (rewrite observe_bind, Hobs; reflexivity).
    simpl. destruct (handle w tr e) as [y|]; [now apply IH | congruence].
Qed.

(** A sequence that ended: its first part returned and the rest ended the
    same way, or the first part panicked. *)
Lemma run_bind_inv X R (t : prog X) (k : X -> prog R) n tr o :
  run w n (ITree.bind t k) tr = o -> final o ->
  (exists x tr', run w n t tr = Returned x tr' /\ run w n (k x) tr' = o)
  \/ (exists tr', run w n t tr = Panicked tr' /\ o = Panicked tr').
Proof.
  revert t tr. induction n as [|n IH]; intros t tr H Hf.
  - simpl in H. subst o. contradiction.
  - rewrite (run_S X). destruct (observe t) as [r|t'|Y e h] eqn:Hobs.
    + left. exists r, tr. split; [reflexivity|].
      rewrite <- H. symmetry. apply run_observe.
      rewrite observe_bind, Hobs. reflexivity.
    + rewrite run_observe with (t2 := Tau (ITree.bind t' k)) in H
        by (rewrite observe_bind, Hobs; reflexivity).
      rewrite run_tau in H.
      destruct (IH _ _ H Hf) as [(x & tr' & Ht & Hk)|(tr' & Ht & Ho)].
      * left. exists x, tr'. split; [assumption|].
        apply run_le with (n := n); auto.
      * right. exists tr'. split; assumption.
    + rewrite run_observe with (t2 := Vis e (fun y => ITree.bind (h y) k)) in H
        by (rewrite observe_bind, Hobs; reflexivity).
      rewrite run_S in H. cbn [observe _observe] in H.
      destruct (handle w tr e) as [y|].
      * destruct (IH _ _ H Hf) as [(x & tr' & Ht & Hk)|(tr' & Ht & Ho)].
        -- left. exists x, tr'. split; [assumption|].
           apply run_le with (n := n); auto.
        -- right. exists tr'. split; assumption.
      * right. eexists. split; [reflexivity | now symmetry].
Qed.

(** *** The rules of [evaluates] *)

Lemma evaluates_intro R (t : prog R) n tr o :
  run w n t tr = o -> final o -> evaluates w t tr o.
Proof. intros H Hf. exists n. intros m Hm. now apply run_le with (n := n). Qed.

Lemma evaluates_run R (t : prog R) tr o :
  evaluates w t tr o -> exists n, run w n t tr = o.
Proof. intros [n H]. exists n. apply H. lia. Qed.

Lemma evaluates_ret R (r : R) tr : evaluates w (Ret r) tr (Returned r tr).
Proof. now apply evaluates_intro with (n := 1). Qed.

Lemma evaluates_bind X R (t : prog X) (k : X -> prog R) tr x tr' o :
  evaluates w t tr (Returned x tr') -> evaluates w (k x) tr' o -> final o ->
  evaluates w (ITree.bind t k) tr o.
Proof.
  intros [n Hn] [m Hm] Hf.
  apply evaluates_intro with (n := n + m); [|assumption].
  eapply run_bind; [apply Hn | apply Hm | assumption]; lia.
Qed.

Lemma evaluates_bind_panicked X R (t : prog X) (k : X -> prog R) tr tr' :
  evaluates w t tr (Panicked tr') ->
  evaluates w (ITree.bind t k) tr (Panicked tr').
Proof.
  intros [n Hn]. apply evaluates_intro with (n := n); [|exact I].
  apply run_bind_panicked, Hn. lia.
Qed.

Lemma evaluates_do X (e : ioE X) tr x :
  handle w tr e = Some x ->
  evaluates w (do e) tr (Returned x (tr ++ [ev e])%list).
Proof.
  intros H. apply evaluates_intro with (n := 2); [|exact I].
  simpl. now rewrite H.
Qed.

Lemma evaluates_do_bind X R (e : ioE X) (k : X -> prog R) tr x o :
  handle w tr e = Some x ->
  evaluates w (k x) (tr ++ [ev e])%list o -> final o ->
  evaluates w (ITree.bind (do e) k) tr o.
Proof.
  intros H Hk Hf. eapply evaluates_bind; eauto using evaluates_do.
Qed.

Lemma evaluates_panic R msg tr :
  evaluates w (panic msg : prog R) tr (Panicked (tr ++ [ev (Panic msg)])%list).
Proof. now apply evaluates_intro with (n := 1). Qed.

(** The loop: a turn that asks for another one, and a turn that leaves. *)
Lemma evaluates_iter_again St R (body : St -> prog (St + R)) i i' tr tr' o :
  evaluates w (body i) tr (Returned (inl i') tr') ->
  evaluates w (ITree.iter body i') tr' o -> final o ->
  evaluates w (ITree.iter body i) tr o.
Proof.
  intros [n Hn] [m Hm] Hf.
  apply evaluates_intro with (n := n + S m); [|assumption].
  rewrite run_iter.
  eapply run_bind; [apply Hn; lia | | assumption].
  change (run w m (ITree.iter body i') tr' = o). apply Hm. lia.
Qed.

Lemma evaluates_iter_leave St R (body : St -> prog (St + R)) i r tr tr' :
  evaluates w (body i) tr (Returned (inr r) tr') ->
  evaluates w (ITree.iter body i) tr (Returned r tr').
Proof.
  intros [n Hn].
  apply evaluates_intro with (n := n + 1); [|exact I].
  rewrite run_iter.
  eapply run_bind; [apply Hn; lia | reflexivity | exact I].
Qed.

(** A loop whose run ended took a turn that left, or a turn that asked for
    another one whose run ended with less fuel. *)
Lemma run_iter_inv St R (body : St -> prog (St + R)) i n tr o :
  run w n (ITree.iter body i) tr = o -> final o ->
  (exists r tr', run w n (body i) tr = Returned (inr r) tr'
                 /\ o = Returned r tr')
  \/ (exists i' tr' m, run w n (body i) tr = Returned (inl i') tr'
                       /\ m < n /\ run w m (ITree.iter body i') tr' = o)
  \/ (exists tr', run w n (body i) tr = Panicked tr' /\ o = Panicked tr').
Proof.
  intros H Hf. rewrite run_iter in H.
  destruct (run_bind_inv _ _ _ _ _ _ _ H Hf) as [(lr & tr' & Hb & Hk)|(tr' & Hb & Ho)].
  - destruct lr as [i'|r].
    + right. left. destruct n as [|n]; [discriminate|].
      exists i', tr', n. rewrite run_tau in Hk. auto.
    + left. exists r, tr'. split; [assumption|].
      destruct n as [|n]; [discriminate|]. now rewrite run_ret in Hk.
  - right. right. eauto.
Qed.

End Run.

(** ** Schema mapper: requests *)

Lemma append_assoc (a b c : string) : (a ++ b) ++ c = a ++ (b ++ c).
Proof. induction a as [|x a IH]; simpl; [reflexivity | now rewrite IH]. Qed.

Lemma append_empty_r (a : string) : a ++ "" = a.
Proof. induction a as [|x a IH]; simpl; [reflexivity | now rewrite IH]. Qed.

(** The loop of [convertOpenAIChatRequestToKobold], started from any prompt,
    appends the lines of the messages to it. *)
Lemma prompt_loop (msgs : list openAIChatMessage) (acc : string) :
  fold_left
    (fun prompt message =>
       prompt ++ (((OpenAIChatMessage.Role message ++ ": ")
                     ++ OpenAIChatMessage.Content message) ++ nl))
    msgs acc
  = acc ++ concatLines msgs.
Proof.
  revert acc. induction msgs as [|m msgs IH]; intros acc; simpl.
  - now rewrite append_empty_r.
  - rewrite IH. unfold messageLine. now rewrite !append_assoc.
Qed.

(** C3. Chat to job: for every chat request the job's prompt is the
    concatenation of [<role>: <content>\n] over the messages in order (the
    empty string when there is none), its models are the requested model
    alone, trusted workers is false, the context length is 1024 and the
    output length is 100. *)
Theorem convertOpenAIChatRequestToKobold_spec (chatReq : openAIChatRequest) :
  convertOpenAIChatRequestToKobold chatReq
  = KoboldAIRequest.mk
      (concatLines (OpenAIChatRequest.Messages chatReq))
      [OpenAIChatRequest.Model chatReq]
      false
      (Params.mk 1024 100)
  /\ convertOpenAIChatRequestToKobold
       (OpenAIChatRequest.mk (OpenAIChatRequest.Model chatReq) [])
     = KoboldAIRequest.mk
         "" [OpenAIChatRequest.Model chatReq] false (Params.mk 1024 100).
Proof.
  unfold convertOpenAIChatRequestToKobold. rewrite prompt_loop.
  split; reflexivity.
Qed.

(** C4. Completion to job: the job's prompt is the request's prompt, its
    models are the requested model alone, trusted workers is false, the
    context length is 1024 and the output length is the request's
    [max_tokens]; so two requests that differ only in temperature, top_p, n,
    stream, logprobs or stop give the same job. *)
Theorem convertOpenAICompletionRequestToKobold_spec
    (model prompt : string) (maxTokens : Z)
    (temperature topP : float64) (n : Z) (stream : bool)
    (logprobs : option Z) (stop : list string)
    (temperature' topP' : float64) (n' : Z) (stream' : bool)
    (logprobs' : option Z) (stop' : list string) :
  convertOpenAICompletionRequestToKobold
    (OpenAICompletionRequest.mk model prompt maxTokens
       temperature topP n stream logprobs stop)
  = KoboldAIRequest.mk prompt [model] false (Params.mk 1024 maxTokens)
  /\ convertOpenAICompletionRequestToKobold
       (OpenAICompletionRequest.mk model prompt maxTokens
          temperature topP n stream logprobs stop)
     = convertOpenAICompletionRequestToKobold
         (OpenAICompletionRequest.mk model prompt maxTokens
            temperature' topP' n' stream' logprobs' stop').
Proof. split; reflexivity. Qed.

(** ** Counting events *)

Lemma count_app (f : event -> bool) (tr1 tr2 : trace) :
  count f (tr1 ++ tr2)%list = count f tr1 + count f tr2.
Proof. unfold count. now rewrite filter_app, length_app. Qed.

Lemma count_snoc (f : event -> bool) (tr : trace) (a : event) :
  count f (tr ++ [a])%list = count f tr + (if f a then 1 else 0).
Proof. rewrite count_app. unfold count. simpl. now destruct (f a). Qed.

Lemma count_none (P f : event -> bool) (tr : trace) :
  (forall a, P a = true -> f a = false) ->
  forallb P tr = true -> count f tr = 0.
Proof.
  intros HP. unfold count. induction tr as [|a tr IH]; simpl; [reflexivity|].
  intros H. apply andb_prop in H as [Ha Htr].
  rewrite (HP a Ha). auto.
Qed.

(** ** Arithmetic on [int] *)

Lemma len_nonneg (s : string) : (0 <= len s)%Z.
Proof. unfold len. lia. Qed.

(** A sum of two non-negative [int]s below 2^63 is exact. *)
Lemma addInt_exact (a b : Z) :
  (0 <= a)%Z -> (0 <= b)%Z -> (a + b < 2 ^ 63)%Z -> addInt a b = (a + b)%Z.
Proof.
  intros Ha Hb Hsum. unfold addInt, wrapInt.
  rewrite Z.mod_small; lia.
Qed.

(** ** Schema mapper: responses *)

Section Convert.
Context (w : World).

Lemma evaluates_ret_eq R (r : R) tr (o : outcome R) :
  o = Returned r tr -> evaluates w (Ret r) tr o.
Proof. intros ->. apply evaluates_ret. Qed.

Lemma sliceIndex_some X (xs : list X) i x :
  nth_error xs i = Some x -> sliceIndex xs i = Ret x.
Proof. unfold sliceIndex. now intros ->. Qed.

Lemma sliceIndex_none X (xs : list X) i tr :
  nth_error xs i = None ->
  evaluates w (sliceIndex xs i) tr
    (Panicked
       (tr ++ [ev (Panic ("runtime error: index out of range ["
                          ++ NilEmpty.string_of_uint (Nat.to_uint i)
                          ++ "] with length "
                          ++ NilEmpty.string_of_uint
                               (Nat.to_uint (List.length xs))))])%list).
Proof. unfold sliceIndex. intros ->. apply evaluates_panic. Qed.

(** What the chat conversion returns on a status that has a first
    generation, and the two events it asks of the world. *)
Lemma convertChat_evaluates (koboldResp : koboldAIPollResponse) g rest tr :
  KoboldAIPollResponse.Generations koboldResp = g :: rest ->
  evaluates w (convertKoboldResponseToOpenAIChatResponse koboldResp) tr
    (Returned
       (OpenAIChatResponse.mk
          (uuid w (count isNewUUID tr))
          "chat.completion"
          (unixTime w (count isTimeNow tr))
          [OpenAIChatChoice.mk 0
             (OpenAIChatMessage.mk "assistant" (Generation.Text g)) "stop"]
          (OpenAIUsage.mk (len (Generation.Text g)) (len (Generation.Text g))
             (addInt (len (Generation.Text g)) (len (Generation.Text g)))))
       (tr ++ [ev NewUUID; ev TimeNowUnix])%list).
Proof.
  intros Hg. unfold convertKoboldResponseToOpenAIChatResponse.
  rewrite Hg, (sliceIndex_some _ (g :: rest) 0 g eq_refl).
  eapply evaluates_bind; [apply evaluates_ret | | exact I].
  eapply evaluates_do_bind; [reflexivity | | exact I].
  eapply evaluates_do_bind; [reflexivity | | exact I].
  eapply evaluates_bind; [apply evaluates_ret | | exact I].
  eapply evaluates_bind; [apply evaluates_ret | | exact I].
  apply evaluates_ret_eq.
  rewrite count_snoc, Nat.add_0_r, <- app_assoc. reflexivity.
Qed.

Lemma convertCompletion_evaluates (koboldResp : koboldAIPollResponse)
    g rest tr :
  KoboldAIPollResponse.Generations koboldResp = g :: rest ->
  evaluates w (convertKoboldResponseToOpenAICompletionResponse koboldResp) tr
    (Returned
       (OpenAICompletionResponse.mk
          (uuid w (count isNewUUID tr))
          "text.completion"
          (unixTime w (count isTimeNow tr))
          "davinci-codex"
          [OpenAICompletionChoice.mk (Generation.Text g) 0 None "stop"]
          (OpenAIUsage.mk 0 0 0))
       (tr ++ [ev NewUUID; ev TimeNowUnix])%list).
Proof.
  intros Hg. unfold convertKoboldResponseToOpenAICompletionResponse.
  rewrite Hg, (sliceIndex_some _ (g :: rest) 0 g eq_refl).
  eapply evaluates_bind; [apply evaluates_ret | | exact I].
  eapply evaluates_do_bind; [reflexivity | | exact I].
  eapply evaluates_do_bind; [reflexivity | | exact I].
  apply evaluates_ret_eq.
  rewrite count_snoc, Nat.add_0_r, <- app_assoc. reflexivity.
Qed.

End Convert.

(** C1. On a status without generations the specification asks both job
    conversions for an error value.  The code has none to give: the first
    thing either conversion does is [koboldResp.Generations[0]], and on an
    empty slice that is Go's index-out-of-range panic, before any other
    event. *)
Theorem conversions_panic_without_generations
    (w : World) (koboldResp : koboldAIPollResponse) (tr : trace) :
  KoboldAIPollResponse.Generations koboldResp = [] ->
  evaluates w (convertKoboldResponseToOpenAIChatResponse koboldResp) tr
    (Panicked
       (tr ++ [ev (Panic "runtime error: index out of range [0] with length 0")])%list)
  /\ evaluates w (convertKoboldResponseToOpenAICompletionResponse koboldResp) tr
       (Panicked
          (tr ++ [ev (Panic "runtime error: index out of range [0] with length 0")])%list).
Proof.
  intros Hg.
  unfold convertKoboldResponseToOpenAIChatResponse,
    convertKoboldResponseToOpenAICompletionResponse.
  rewrite Hg.
  split; apply evaluates_bind_panicked;
    apply (sliceIndex_none w generation [] 0 tr eq_refl).
Qed.

Lemma conversions_panic_without_generations_witness :
  evaluates testWorld
    (convertKoboldResponseToOpenAIChatResponse (testStatus true false [])) []
    (Panicked [ev (Panic "runtime error: index out of range [0] with length 0")])
  /\ evaluates testWorld
       (convertKoboldResponseToOpenAICompletionResponse
          (testStatus true false [])) []
       (Panicked [ev (Panic "runtime error: index out of range [0] with length 0")]).
Proof.
  apply (conversions_panic_without_generations
           testWorld (testStatus true false []) []).
  reflexivity.
Defined.

(** C5. Job to completion: on a status with at least one generation the
    conversion returns the object tag "text.completion", the model
    "davinci-codex" whatever was requested, one choice with the first
    generation's text, index 0, no log-probabilities and finish reason
    "stop", and a usage of three zeros.  The id and the creation time are
    whatever the uuid generator and the clock give. *)
Theorem convertKoboldResponseToOpenAICompletionResponse_spec
    (w : World) (koboldResp : koboldAIPollResponse)
    (g : generation) (rest : list generation) (tr : trace) :
  KoboldAIPollResponse.Generations koboldResp = g :: rest ->
  evaluates w (convertKoboldResponseToOpenAICompletionResponse koboldResp) tr
    (Returned
       (OpenAICompletionResponse.mk
          (uuid w (count isNewUUID tr))
          "text.completion"
          (unixTime w (count isTimeNow tr))
          "davinci-codex"
          [OpenAICompletionChoice.mk (Generation.Text g) 0 None "stop"]
          (OpenAIUsage.mk 0 0 0))
       (tr ++ [ev NewUUID; ev TimeNowUnix])%list).
Proof. apply convertCompletion_evaluates. Qed.

Lemma convertKoboldResponseToOpenAICompletionResponse_spec_witness :
  evaluates testWorld
    (convertKoboldResponseToOpenAICompletionResponse
       (testStatus true false [testGeneration "World"])) []
    (Returned
       (OpenAICompletionResponse.mk
          "6ba7b810-9dad-11d1-80b4-00c04fd430c8"
          "text.completion"
          1700000000
          "davinci-codex"
          [OpenAICompletionChoice.mk "World" 0 None "stop"]
          (OpenAIUsage.mk 0 0 0))
       [ev NewUUID; ev TimeNowUnix]).
Proof.
  apply (convertKoboldResponseToOpenAICompletionResponse_spec
           testWorld (testStatus true false [testGeneration "World"])
           (testGeneration "World") [] []).
  reflexivity.
Defined.

(** C6. Job to chat: on a status with at least one generation the conversion
    returns the object tag "chat.completion" and one choice at index 0 whose
    message has role "assistant" and the first generation's text as content,
    with finish reason "stop"; the usage counts bytes of that text, not
    tokens: prompt and completion tokens are its length and total tokens
    twice its length.  (The text is shorter than 2^62 bytes, as every string
    a Go program holds in memory is, so that the sum of the two lengths is
    an [int].) *)
Theorem convertKoboldResponseToOpenAIChatResponse_spec
    (w : World) (koboldResp : koboldAIPollResponse)
    (g : generation) (rest : list generation) (tr : trace) :
  KoboldAIPollResponse.Generations koboldResp = g :: rest ->
  (len (Generation.Text g) < 2 ^ 62)%Z ->
  evaluates w (convertKoboldResponseToOpenAIChatResponse koboldResp) tr
    (Returned
       (OpenAIChatResponse.mk
          (uuid w (count isNewUUID tr))
          "chat.completion"
          (unixTime w (count isTimeNow tr))
          [OpenAIChatChoice.mk 0
             (OpenAIChatMessage.mk "assistant" (Generation.Text g)) "stop"]
          (OpenAIUsage.mk (len (Generation.Text g)) (len (Generation.Text g))
             (2 * len (Generation.Text g))))
       (tr ++ [ev NewUUID; ev TimeNowUnix])%list).
Proof.
  intros Hg Hlen.
  replace (2 * len (Generation.Text g))%Z
    with (addInt (len (Generation.Text g)) (len (Generation.Text g))).
  - now apply convertChat_evaluates with (rest := rest).
  - rewrite addInt_exact; [lia | apply len_nonneg | apply len_nonneg | lia].
Qed.

Lemma convertKoboldResponseToOpenAIChatResponse_spec_witness :
  evaluates testWorld
    (convertKoboldResponseToOpenAIChatResponse
       (testStatus true false [testGeneration "hello"])) []
    (Returned
       (OpenAIChatResponse.mk
          "6ba7b810-9dad-11d1-80b4-00c04fd430c8"
          "chat.completion"
          1700000000
          [OpenAIChatChoice.mk 0
             (OpenAIChatMessage.mk "assistant" "hello") "stop"]
          (OpenAIUsage.mk 5 5 10))
       [ev NewUUID; ev TimeNowUnix]).
Proof.
  apply (convertKoboldResponseToOpenAIChatResponse_spec
           testWorld (testStatus true false [testGeneration "hello"])
           (testGeneration "hello") [] []); reflexivity.
Defined.

(** C7. Only the first generation is used: two statuses with the same first
    generation give the same conversion programs, whatever follows the first
    generation in either; run in any two worlds, both conversions return
    responses that agree on everything but the id and the creation time. *)
Theorem conversions_depend_on_first_generation_only
    (r1 r2 : koboldAIPollResponse) (g : generation)
    (rest1 rest2 : list generation) :
  KoboldAIPollResponse.Generations r1 = g :: rest1 ->
  KoboldAIPollResponse.Generations r2 = g :: rest2 ->
  convertKoboldResponseToOpenAIChatResponse r1
  = convertKoboldResponseToOpenAIChatResponse r2
  /\ convertKoboldResponseToOpenAICompletionResponse r1
     = convertKoboldResponseToOpenAICompletionResponse r2
  /\ forall (w1 w2 : World) (tr1 tr2 : trace),
     exists x1 x2 y1 y2 tr1' tr2',
       evaluates w1 (convertKoboldResponseToOpenAIChatResponse r1) tr1
         (Returned x1 tr1')
       /\ evaluates w2 (convertKoboldResponseToOpenAIChatResponse r2) tr2
            (Returned x2 tr2')
       /\ evaluates w1 (convertKoboldResponseToOpenAICompletionResponse r1) tr1
            (Returned y1 tr1')
       /\ evaluates w2 (convertKoboldResponseToOpenAICompletionResponse r2) tr2
            (Returned y2 tr2')
       /\ OpenAIChatResponse.Object x1 = OpenAIChatResponse.Object x2
       /\ OpenAIChatResponse.Choices x1 = OpenAIChatResponse.Choices x2
       /\ OpenAIChatResponse.Usage x1 = OpenAIChatResponse.Usage x2
       /\ OpenAICompletionResponse.Object y1 = OpenAICompletionResponse.Object y2
       /\ OpenAICompletionResponse.Model y1 = OpenAICompletionResponse.Model y2
       /\ OpenAICompletionResponse.Choices y1 = OpenAICompletionResponse.Choices y2
       /\ OpenAICompletionResponse.Usage y1 = OpenAICompletionResponse.Usage y2.
Proof.
  intros H1 H2. split; [|split].
  - unfold convertKoboldResponseToOpenAIChatResponse. now rewrite H1, H2.
  - unfold convertKoboldResponseToOpenAICompletionResponse. now rewrite H1, H2.
  - intros w1 w2 tr1 tr2.
    do 6 eexists.
    split; [apply (convertChat_evaluates w1 r1 g rest1 tr1 H1)|].
    split; [apply (convertChat_evaluates w2 r2 g rest2 tr2 H2)|].
    split; [apply (convertCompletion_evaluates w1 r1 g rest1 tr1 H1)|].
    split; [apply (convertCompletion_evaluates w2 r2 g rest2 tr2 H2)|].
    repeat split.
Qed.

Lemma conversions_depend_on_first_generation_only_witness :
  convertKoboldResponseToOpenAIChatResponse
    (testStatus true false [testGeneration "a"; testGeneration "b"])
  = convertKoboldResponseToOpenAIChatResponse
      (testStatus true true [testGeneration "a"; testGeneration "c";
                             testGeneration "d"]).
Proof.
  apply (conversions_depend_on_first_generation_only
           (testStatus true false [testGeneration "a"; testGeneration "b"])
           (testStatus true true [testGeneration "a"; testGeneration "c";
                                  testGeneration "d"])
           (testGeneration "a") [testGeneration "b"]
           [testGeneration "c"; testGeneration "d"] eq_refl eq_refl).
Defined.

(** ** Which events a program can add *)

Section Emits.
Context (w : World) (P : event -> bool).

Lemma run_extends R (t : prog R) n tr :
  exists ext, traceOf (run w n t tr) = (tr ++ ext)%list.
Proof.
  revert t tr. induction n as [|n IH]; intros t tr.
  - exists []. simpl. now rewrite app_nil_r.
  - rewrite run_S. destruct (observe t) as [r|t'|X e k].
    + exists []. simpl. now rewrite app_nil_r.
    + apply IH.
    + destruct (handle w tr e) as [x|].
      * destruct (IH (k x) (tr ++ [ev e])%list) as [ext Hext].
        exists (ev e :: ext). rewrite Hext, <- app_assoc. reflexivity.
      * exists [ev e]. reflexivity.
Qed.

Lemma emits_upto R (t : prog R) tr :
  emits P w t tr <-> forall bound, emitsUpTo bound P w t tr.
Proof.
  split.
  - intros H bound fuel _. apply H.
  - intros H fuel. apply (H fuel fuel). lia.
Qed.

Lemma emits_ret R (r : R) tr : emits P w (Ret r) tr.
Proof.
  intros [|fuel]; exists []; simpl; now rewrite app_nil_r.
Qed.

Lemma emitsUpTo_tau R (t : prog R) tr n :
  emitsUpTo n P w t tr -> emitsUpTo (S n) P w (Tau t) tr.
Proof.
  intros H [|fuel] Hfuel.
  - exists []. simpl. now rewrite app_nil_r.
  - rewrite run_tau. apply H. lia.
Qed.

Lemma emits_panic R msg tr :
  P (ev (Panic msg)) = true -> emits P w (panic msg : prog R) tr.
Proof.
  intros HP [|fuel].
  - exists []. simpl. now rewrite app_nil_r.
  - exists [ev (Panic msg)]. simpl. now rewrite HP.
Qed.

Lemma emits_do_bind X R (e : ioE X) (k : X -> prog R) tr :
  P (ev e) = true ->
  (forall x, handle w tr e = Some x -> emits P w (k x) (tr ++ [ev e])%list) ->
  emits P w (ITree.bind (do e) k) tr.
Proof.
  intros HP Hk [|fuel].
  - exists []. simpl. now rewrite app_nil_r.
  - rewrite run_do_bind. destruct (handle w tr e) as [x|].
    + destruct (Hk x eq_refl fuel) as (ext & Hext & Hall).
      exists (ev e :: ext). rewrite Hext, <- app_assoc.
      split; [reflexivity|]. simpl. now rewrite HP.
    + exists [ev e]. split; [reflexivity|]. simpl. now rewrite HP.
Qed.

Lemma emits_do X (e : ioE X) tr : P (ev e) = true -> emits P w (do e) tr.
Proof.
  intros HP [|[|fuel]].
  - exists []. simpl. now rewrite app_nil_r.
  - exists [ev e]. simpl. rewrite HP. now destruct (handle w tr e).
  - exists [ev e]. simpl. rewrite HP. now destruct (handle w tr e).
Qed.

(** Sequencing, for runs of bounded length: the continuation is only asked
    about runs within the bound. *)
Lemma emitsUpTo_bind X R (t : prog X) (k : X -> prog R) tr bound :
  emits P w t tr ->
  (forall x tr', emitsUpTo bound P w (k x) tr') ->
  emitsUpTo bound P w (ITree.bind t k) tr.
Proof.
  intros Ht Hk fuel. revert t tr Ht.
  induction fuel as [|fuel IH]; intros t tr Ht Hfuel.
  - exists []. simpl. now rewrite app_nil_r.
  - destruct (observe t) as [r|t'|Y e h] eqn:Hobs.
    + rewrite run_observe with (t2 := k r)
        by (rewrite observe_bind, Hobs; reflexivity).
      now apply Hk.
    + rewrite run_observe with (t2 := Tau (ITree.bind t' k))
        by (rewrite observe_bind, Hobs; reflexivity).
      rewrite run_tau. apply IH; [|lia].
      intros n. specialize (Ht (S n)). now rewrite run_S, Hobs in Ht.
    + rewrite run_observe with (t2 := Vis e (fun y => ITree.bind (h y) k))
        by (rewrite observe_bind, Hobs; reflexivity).
      rewrite run_S. cbn [observe _observe].
      assert (HP : P (ev e) = true).
      { destruct (Ht 1) as (ext & Hext & Hall).
        rewrite run_S, Hobs in Hext.
        assert (Hone : (tr ++ [ev e])%list = (tr ++ ext)%list)
          by (destruct (handle w tr e); exact Hext).
        apply app_inv_head in Hone. subst ext.
        simpl in Hall. now rewrite andb_true_r in Hall. }
      destruct (handle w tr e) as [y|] eqn:Hh.
      * destruct (IH (h y) (tr ++ [ev e])%list) as (ext & Hext & Hall);
          [|lia|].
        -- intros n. destruct (Ht (S n)) as (ext & Hext & Hall).
           rewrite run_S, Hobs, Hh in Hext.
           destruct (run_extends _ (h y) n (tr ++ [ev e])%list) as [ext' Hext'].
           exists ext'. split; [assumption|].
           rewrite Hext', <- app_assoc in Hext.
           apply app_inv_head in Hext. subst ext.
           simpl in Hall. now apply andb_prop in Hall.
        -- exists (ev e :: ext). rewrite Hext, <- app_assoc.
           split; [reflexivity|]. simpl. now rewrite HP.
      * exists [ev e]. split; [reflexivity|]. simpl. now rewrite HP.
Qed.

Lemma emits_bind X R (t : prog X) (k : X -> prog R) tr :
  emits P w t tr -> (forall x tr', emits P w (k x) tr') ->
  emits P w (ITree.bind t k) tr.
Proof.
  intros Ht Hk. apply emits_upto. intros bound.
  apply emitsUpTo_bind; [assumption|].
  intros x tr'. now apply emits_upto.
Qed.

(** A loop adds what its turns add. *)
Lemma emits_iter St R (body : St -> prog (St + R)) :
  (forall i tr, emits P w (body i) tr) ->
  forall i tr, emits P w (ITree.iter body i) tr.
Proof.
  intros Hbody.
  assert (H : forall bound i tr, emitsUpTo bound P w (ITree.iter body i) tr).
  { induction bound as [|bound IH]; intros i tr fuel Hfuel.
    - replace fuel with 0 by lia. exists []. simpl. now rewrite app_nil_r.
    - rewrite run_iter.
      apply (emitsUpTo_bind _ _ (body i) _ tr (S bound)); auto.
      intros [l|r] tr'.
      + apply emitsUpTo_tau, IH.
      + apply emits_upto, emits_ret. }
  intros i tr. apply emits_upto. intros bound. apply H.
Qed.

End Emits.

(** ** Downstream client: the poll loop *)

Lemma count_snoc_false (f : event -> bool) (tr : trace) (a : event) :
  f a = false -> count f (tr ++ [a])%list = count f tr.
Proof. intros H. now rewrite count_snoc, H, Nat.add_0_r. Qed.

Section Poll.
Context (L : GoLib) (w : World) (url : string).

Lemma runDeferred_evaluates (deferred : list httpResponse) tr :
  evaluates w (runDeferred deferred) tr
    (Returned tt (tr ++ map (fun resp => ev (BodyClose resp)) deferred)%list).
Proof.
  revert tr. induction deferred as [|resp earlier IH]; intros tr; simpl.
  - rewrite app_nil_r. apply evaluates_ret.
  - eapply evaluates_do_bind; [reflexivity | | exact I].
    specialize (IH (tr ++ [ev (BodyClose resp)])%list).
    now rewrite <- app_assoc in IH.
Qed.

Lemma runDeferred_events (deferred : list httpResponse) :
  forallb isClientEvent (map (fun resp => ev (BodyClose resp)) deferred) = true
  /\ count isGet (map (fun resp => ev (BodyClose resp)) deferred) = 0
  /\ count isSleep (map (fun resp => ev (BodyClose resp)) deferred) = 0.
Proof. induction deferred; simpl; auto. Qed.

(** A turn that gets an unfinished status asks for another turn. *)
Lemma pollTurn_again deferred tr resp st :
  httpGetReply w (count isGet tr) url = inr resp ->
  jsonDecodePollResponse L (HttpResponse.Body resp) = inr st ->
  KoboldAIPollResponse.Done st = false ->
  evaluates w (pollTurn L url deferred) tr
    (Returned (inl (resp :: deferred)) (tr ++ turnEvents url st)%list).
Proof.
  intros Hget Hdec Hdone. unfold pollTurn.
  eapply evaluates_do_bind; [reflexivity | | exact I].
  eapply evaluates_do_bind; [reflexivity | | exact I].
  rewrite (count_snoc_false isGet) by reflexivity. rewrite Hget.
  eapply evaluates_do_bind; [reflexivity | | exact I].
  rewrite Hdec.
  eapply evaluates_do_bind; [reflexivity | | exact I].
  rewrite Hdone. apply evaluates_ret_eq.
  unfold turnEvents. now rewrite <- !app_assoc.
Qed.

(** A turn that gets a finished status leaves the loop with it. *)
Lemma pollTurn_done deferred tr resp st :
  httpGetReply w (count isGet tr) url = inr resp ->
  jsonDecodePollResponse L (HttpResponse.Body resp) = inr st ->
  KoboldAIPollResponse.Done st = true ->
  evaluates w (pollTurn L url deferred) tr
    (Returned (inr ((st, None), resp :: deferred))
       (tr ++ turnEvents url st)%list).
Proof.
  intros Hget Hdec Hdone. unfold pollTurn.
  eapply evaluates_do_bind; [reflexivity | | exact I].
  eapply evaluates_do_bind; [reflexivity | | exact I].
  rewrite (count_snoc_false isGet) by reflexivity. rewrite Hget.
  eapply evaluates_do_bind; [reflexivity | | exact I].
  rewrite Hdec.
  eapply evaluates_do_bind; [reflexivity | | exact I].
  rewrite Hdone. apply evaluates_ret_eq.
  unfold turnEvents. now rewrite <- !app_assoc.
Qed.

Lemma turnEvents_counts st :
  forallb isClientEvent (turnEvents url st) = true
  /\ count isGet (turnEvents url st) = 1
  /\ count isSleep (turnEvents url st) = 1.
Proof. repeat split. Qed.

(** The loop, started after [tr], when the statuses decoded from the next
    GETs are [sts 0], [sts 1], ... and [sts k] is the first finished one:
    it leaves with [sts k] after [k + 1] GETs. *)
Lemma pollLoop_returns k : forall deferred tr sts,
  (forall i, i <= k -> exists resp,
      httpGetReply w (count isGet tr + i) url = inr resp
      /\ jsonDecodePollResponse L (HttpResponse.Body resp) = inr (sts i)) ->
  firstDone sts k ->
  exists deferred' ext,
    evaluates w (ITree.iter (pollTurn L url) deferred) tr
      (Returned ((sts k, None), deferred') (tr ++ ext)%list)
    /\ forallb isClientEvent ext = true
    /\ count isGet ext = S k
    /\ count isSleep ext = S k.
Proof.
  induction k as [|k IH]; intros deferred tr sts Hdec [Hk Hbefore].
  - destruct (Hdec 0 (Nat.le_refl 0)) as (resp & Hget & Hd).
    rewrite Nat.add_0_r in Hget.
    exists (resp :: deferred), (turnEvents url (sts 0)).
    split; [|apply turnEvents_counts].
    apply evaluates_iter_leave. now apply pollTurn_done.
  - destruct (Hdec 0 (Nat.le_0_l _)) as (resp & Hget & Hd).
    rewrite Nat.add_0_r in Hget.
    destruct (IH (resp :: deferred) (tr ++ turnEvents url (sts 0))%list
                (fun i => sts (S i)))
      as (deferred' & ext & Hev & Hall & Hgets & Hsleeps).
    + intros i Hi. rewrite count_app.
      destruct (turnEvents_counts (sts 0)) as (_ & -> & _).
      replace (count isGet tr + 1 + i) with (count isGet tr + S i) by lia.
      apply Hdec. lia.
    + split; [exact Hk|]. intros i Hi. apply Hbefore. lia.
    + exists deferred', (turnEvents url (sts 0) ++ ext)%list.
      rewrite app_assoc. split; [|split; [|split]].
      * eapply evaluates_iter_again; [| exact Hev | exact I].
        apply pollTurn_again; auto. apply Hbefore. lia.
      * rewrite forallb_app, Hall. reflexivity.
      * rewrite count_app, Hgets. reflexivity.
      * rewrite count_app, Hsleeps. reflexivity.
Qed.

(** The loop when no status is ever finished: no amount of fuel makes it
    leave. *)
Lemma pollLoop_never fuel : forall deferred tr sts,
  (forall i, exists resp,
      httpGetReply w (count isGet tr + i) url = inr resp
      /\ jsonDecodePollResponse L (HttpResponse.Body resp) = inr (sts i)) ->
  (forall i, KoboldAIPollResponse.Done (sts i) = false) ->
  exists tr', run w fuel (ITree.iter (pollTurn L url) deferred) tr
              = OutOfFuel tr'.
Proof.
  induction fuel as [fuel IH] using lt_wf_ind.
  intros deferred tr sts Hdec Hnever.
  assert (Hnot : ~ final (run w fuel (ITree.iter (pollTurn L url) deferred) tr)).
  { intros Hfinal.
    destruct (Hdec 0) as (resp & Hget & Hd). rewrite Nat.add_0_r in Hget.
    destruct (evaluates_run _ _ _ _ _
                (pollTurn_again deferred tr resp (sts 0) Hget Hd (Hnever 0)))
      as [n Hturn].
    destruct (run_iter_inv _ _ _ _ _ _ _ _ eq_refl Hfinal)
      as [(r' & tr1 & Hb & _)|[(d' & tr1 & m & Hb & Hm & Hrest)|(tr1 & Hb & _)]].
    - pose proof (run_deterministic _ _ _ _ _ _ _ _ Hb I Hturn I) as Heq.
      discriminate.
    - pose proof (run_deterministic _ _ _ _ _ _ _ _ Hb I Hturn I) as Heq.
      injection Heq as -> ->.
      destruct (IH m Hm (resp :: deferred) (tr ++ turnEvents url (sts 0))%list
                  (fun i => sts (S i))) as [tr2 Hout].
      + intros i. rewrite count_app.
        destruct (turnEvents_counts (sts 0)) as (_ & -> & _).
        replace (count isGet tr + 1 + i) with (count isGet tr + S i) by lia.
        apply Hdec.
      + intros i. apply Hnever.
      + rewrite <- Hrest, Hout in Hfinal. exact Hfinal.
    - pose proof (run_deterministic _ _ _ _ _ _ _ _ Hb I Hturn I) as Heq.
      discriminate. }
  destruct (run w fuel (ITree.iter (pollTurn L url) deferred) tr)
    as [r tr'|tr'|tr']; [exfalso; now apply Hnot .. | now exists tr'].
Qed.

(** Every event of a turn, whatever the horde answers, is one of the
    client's. *)
Lemma pollTurn_emits deferred tr :
  emits isClientEvent w (pollTurn L url deferred) tr.
Proof.
  unfold pollTurn.
  apply emits_do_bind; [reflexivity|]. intros [] _.
  apply emits_do_bind; [reflexivity|]. intros [err|resp] _.
  - apply emits_do_bind; [reflexivity|]. intros [] _. apply emits_ret.
  - apply emits_do_bind; [reflexivity|]. intros [] _.
    destruct (jsonDecodePollResponse L (HttpResponse.Body resp)) as [err|st].
    + apply emits_do_bind; [reflexivity|]. intros [] _. apply emits_ret.
    + apply emits_do_bind; [reflexivity|]. intros [] _.
      destruct (KoboldAIPollResponse.Done st); apply emits_ret.
Qed.

Lemma runDeferred_emits deferred tr :
  emits isClientEvent w (runDeferred deferred) tr.
Proof.
  revert tr. induction deferred as [|resp earlier IH]; intros tr; simpl.
  - apply emits_ret.
  - apply emits_do_bind; [reflexivity|]. intros [] _. apply IH.
Qed.

End Poll.

Section PollKoboldAPI.
Context (L : GoLib) (w : World).

(** [pollKoboldAPI] after the events [tr]: the statuses decoded from the next
    GETs are [sts 0], [sts 1], ..., and [sts k] is the first finished one. *)
Lemma pollKoboldAPI_returns id k tr sts :
  (forall i, i <= k -> exists resp,
      httpGetReply w (count isGet tr + i) (koboldStatusURL ++ id) = inr resp
      /\ jsonDecodePollResponse L (HttpResponse.Body resp) = inr (sts i)) ->
  firstDone sts k ->
  exists ext,
    evaluates w (pollKoboldAPI L id) tr (Returned (sts k, None) (tr ++ ext)%list)
    /\ forallb isClientEvent ext = true
    /\ count isGet ext = S k
    /\ count isSleep ext = S k.
Proof.
  intros Hdec Hfirst.
  destruct (pollLoop_returns L w (koboldStatusURL ++ id) k [] tr sts Hdec Hfirst)
    as (deferred' & ext & Hev & Hall & Hgets & Hsleeps).
  destruct (runDeferred_events deferred') as (Hc & Hg & Hs).
  exists (ext ++ map (fun resp => ev (BodyClose resp)) deferred')%list.
  split; [|split; [|split]].
  - unfold pollKoboldAPI.
    eapply evaluates_bind; [exact Hev | | exact I].
    eapply evaluates_bind; [apply runDeferred_evaluates | | exact I].
    apply evaluates_ret_eq. now rewrite app_assoc.
  - now rewrite forallb_app, Hall, Hc.
  - rewrite count_app, Hgets, Hg. lia.
  - rewrite count_app, Hsleeps, Hs. lia.
Qed.

Lemma pollKoboldAPI_never id fuel tr sts :
  (forall i, exists resp,
      httpGetReply w (count isGet tr + i) (koboldStatusURL ++ id) = inr resp
      /\ jsonDecodePollResponse L (HttpResponse.Body resp) = inr (sts i)) ->
  (forall i, KoboldAIPollResponse.Done (sts i) = false) ->
  exists tr', run w fuel (pollKoboldAPI L id) tr = OutOfFuel tr'.
Proof.
  intros Hdec Hnever.
  assert (Hnot : ~ final (run w fuel (pollKoboldAPI L id) tr)).
  { intros Hfinal. unfold pollKoboldAPI in Hfinal.
    destruct (pollLoop_never L w _ fuel [] tr sts Hdec Hnever) as [tr2 Hout].
    destruct (run_bind_inv _ _ _ _ _ _ _ _ eq_refl Hfinal)
      as [(x & tr1 & Hloop & _)|(tr1 & Hloop & _)]; congruence. }
  destruct (run w fuel (pollKoboldAPI L id) tr) as [r tr'|tr'|tr'];
    [exfalso; now apply Hnot .. | now exists tr'].
Qed.

Lemma pollKoboldAPI_emits id tr :
  emits isClientEvent w (pollKoboldAPI L id) tr.
Proof.
  unfold pollKoboldAPI. apply emits_bind.
  - apply emits_iter. intros. apply pollTurn_emits.
  - intros [ret deferred] tr'. apply emits_bind.
    + apply runDeferred_emits.
    + intros. apply emits_ret.
Qed.

End PollKoboldAPI.

(** C2. The poll loop, for every sequence [sts] of statuses decoded from the
    answers to the status GETs: if [sts k] is the first with [done] set, the
    loop returns [sts k] without error after exactly [k + 1] GETs (each after
    a sleep); the [faulted] flag of the earlier statuses plays no part.  If
    no status ever has [done] set, faulted or not, the loop never returns. *)
Theorem pollKoboldAPI_returns_at_first_done
    (L : GoLib) (w : World) (id : string)
    (sts : nat -> koboldAIPollResponse) :
  (forall k,
     (forall i, i <= k -> decodedPoll L w (koboldStatusURL ++ id) sts i) ->
     firstDone sts k ->
     exists tr,
       evaluates w (pollKoboldAPI L id) [] (Returned (sts k, None) tr)
       /\ count isGet tr = S k
       /\ count isSleep tr = S k)
  /\ ((forall i, decodedPoll L w (koboldStatusURL ++ id) sts i) ->
      (forall i, KoboldAIPollResponse.Done (sts i) = false) ->
      forall fuel, exists tr,
        run w fuel (pollKoboldAPI L id) [] = OutOfFuel tr).
Proof.
  split.
  - intros k Hdec Hfirst.
    destruct (pollKoboldAPI_returns L w id k [] sts Hdec Hfirst)
      as (ext & Hev & _ & Hg & Hs).
    exists ext. auto.
  - intros Hdec Hnever fuel.
    now apply pollKoboldAPI_never with (sts := sts).
Qed.

Lemma testStatuses_decoded (id : string) (i : nat) :
  decodedPoll testLib testWorld (koboldStatusURL ++ id) testStatuses i.
Proof. destruct i; eexists; split; reflexivity. Qed.

Lemma pollKoboldAPI_returns_at_first_done_witness :
  exists tr,
    evaluates testWorld (pollKoboldAPI testLib "job-1") []
      (Returned (testStatus true false [testGeneration "World"], None) tr)
    /\ count isGet tr = 2
    /\ count isSleep tr = 2.
Proof.
  apply (proj1 (pollKoboldAPI_returns_at_first_done
                  testLib testWorld "job-1" testStatuses) 1).
  - intros i _. apply testStatuses_decoded.
  - split; [reflexivity|].
    intros [|i] Hi; [reflexivity|].
    exfalso. apply (Nat.nlt_0_r i). apply Nat.succ_lt_mono. exact Hi.
Defined.

(** The same run, event by event: a sleep and a GET that finds
    the job faulted and unfinished, a sleep and a GET that finds it done, and
    the two deferred closes. *)
Example pollKoboldAPI_two_gets :
  run testWorld 20 (pollKoboldAPI testLib "job-1") []
  = Returned (testStatus true false [testGeneration "World"], None)
      [ev (Sleep (2 * Second));
       ev (HttpGet (koboldStatusURL ++ "job-1"));
       ev (Fprintln Stdout [FPollResp KoboldAIPollResponse.zero]);
       ev (Fprintf Stdout ("Resp: %+v" ++ nl)
             [FPollResp (testStatus false true [])]);
       ev (Sleep (2 * Second));
       ev (HttpGet (koboldStatusURL ++ "job-1"));
       ev (Fprintln Stdout [FPollResp KoboldAIPollResponse.zero]);
       ev (Fprintf Stdout ("Resp: %+v" ++ nl)
             [FPollResp (testStatus true false [testGeneration "World"])]);
       ev (BodyClose (HttpResponse.mk 200 "done"));
       ev (BodyClose (HttpResponse.mk 200 "faulted"))].
Proof. vm_compute. reflexivity. Qed.

(** ** Downstream client: submitting *)

Section Call.
Context (L : GoLib) (w : World).

Lemma callKoboldAPI_emits koboldReq apiKey tr :
  emits isClientEvent w (callKoboldAPI L koboldReq apiKey) tr.
Proof.
  unfold callKoboldAPI.
  apply emits_do_bind; [reflexivity|]. intros [] _.
  destruct (jsonMarshal L koboldReq) as [err|reqBody].
  { apply emits_do_bind; [reflexivity|]. intros [] _. apply emits_ret. }
  destruct (httpNewRequest L "POST" koboldAPIURL reqBody) as [err|req].
  { apply emits_do_bind; [reflexivity|]. intros [] _. apply emits_ret. }
  apply emits_do_bind; [reflexivity|]. intros [err|resp] _.
  { apply emits_do_bind; [reflexivity|]. intros [] _.
    apply emits_do_bind; [reflexivity|]. intros [] _. apply emits_ret. }
  apply emits_do_bind; [reflexivity|]. intros [] _.
  apply emits_bind.
  - destruct (jsonDecodeAsyncResponse L (HttpResponse.Body resp))
      as [err|jsonResponse].
    + apply emits_do_bind; [reflexivity|]. intros [] _. apply emits_ret.
    + apply emits_do_bind; [reflexivity|]. intros [] _.
      apply emits_do_bind; [reflexivity|]. intros [] _.
      apply emits_bind; [apply pollKoboldAPI_emits|].
      intros [result [err|]] tr'.
      * apply emits_do_bind; [reflexivity|]. intros [] _. apply emits_ret.
      * apply emits_ret.
  - intros ret tr'.
    apply emits_do_bind; [reflexivity|]. intros [] _. apply emits_ret.
Qed.

End Call.

(** C8. When the submit POST fails in transport, [callKoboldAPI] returns the
    zero status with the error of the POST, having written the request to
    standard output, sent the POST and reported the failure: no status GET
    is sent and the poll loop, which starts with a sleep, is not entered.
    (Go has one [error] type; the error returned is the transport error
    itself.) *)
Theorem callKoboldAPI_submit_failure_never_polls
    (L : GoLib) (w : World) (koboldReq : koboldAIRequest) (apiKey : string)
    (tr : trace) (reqBody : string) (req : httpRequest) (err : error) :
  jsonMarshal L koboldReq = inr reqBody ->
  httpNewRequest L "POST" koboldAPIURL reqBody = inr req ->
  clientDoReply w (count isPost tr) (submitted L req apiKey) = inl err ->
  exists ext,
    evaluates w (callKoboldAPI L koboldReq apiKey) tr
      (Returned (KoboldAIPollResponse.zero, Some err) (tr ++ ext)%list)
    /\ ext = [ev (Fprintf Stdout ("Req: %+v" ++ nl) [FKoboldReq koboldReq]);
              ev (ClientDo (submitted L req apiKey));
              ev (Fprintln Stdout [FStr "Sending request to horde"]);
              ev (Fprintln Stderr
                    [FSprintf "Error while querying horde at %s:%d: %v"
                       [FStr (sourceFile L); FInt 242; FErr err]])]
    /\ count isGet ext = 0
    /\ count isSleep ext = 0.
Proof.
  intros Hmarshal Hreq Hdo. eexists. split; [|split; [reflexivity|split]].
  - unfold callKoboldAPI.
    eapply evaluates_do_bind; [reflexivity | | exact I].
    rewrite Hmarshal, Hreq.
    eapply evaluates_do_bind; [reflexivity | | exact I].
    rewrite (count_snoc_false isPost) by reflexivity.
    fold (submitted L req apiKey). rewrite Hdo.
    eapply evaluates_do_bind; [reflexivity | | exact I].
    eapply evaluates_do_bind; [reflexivity | | exact I].
    apply evaluates_ret_eq. now rewrite <- !app_assoc.
  - reflexivity.
  - reflexivity.
Qed.

Lemma callKoboldAPI_submit_failure_never_polls_witness :
  exists ext,
    evaluates downWorld
      (callKoboldAPI testLib
         (convertOpenAICompletionRequestToKobold
            (OpenAICompletionRequest.mk "m" "Hi" 50
               (S754_zero false) (S754_zero false) 0 false None []))
         defaultAPIKey) []
      (Returned (KoboldAIPollResponse.zero, Some "dial tcp: connection refused")
         ([] ++ ext)%list)
    /\ ext = [ev (Fprintf Stdout ("Req: %+v" ++ nl)
                    [FKoboldReq
                       (KoboldAIRequest.mk "Hi" ["m"] false (Params.mk 1024 50))]);
              ev (ClientDo
                    (submitted testLib
                       (HttpRequest.mk "POST" koboldAPIURL [] "Hi")
                       defaultAPIKey));
              ev (Fprintln Stdout [FStr "Sending request to horde"]);
              ev (Fprintln Stderr
                    [FSprintf "Error while querying horde at %s:%d: %v"
                       [FStr "main.go"; FInt 242;
                        FErr "dial tcp: connection refused"]])]
    /\ count isGet ext = 0
    /\ count isSleep ext = 0.
Proof.
  apply (callKoboldAPI_submit_failure_never_polls
           testLib downWorld
           (KoboldAIRequest.mk "Hi" ["m"] false (Params.mk 1024 50))
           defaultAPIKey [] "Hi"
           (HttpRequest.mk "POST" koboldAPIURL [] "Hi")
           "dial tcp: connection refused");
    reflexivity.
Defined.

(** ** Request handlers *)

Lemma clientEvent_not_reply (a : event) :
  isClientEvent a = true -> isHeaderSet a = false /\ isEncode a = false.
Proof. destruct a as [X []]; simpl; intros H; (discriminate || auto). Qed.

Lemma convertEvent_not_reply (a : event) :
  isConvertEvent a = true -> isHeaderSet a = false /\ isEncode a = false.
Proof. destruct a as [X []]; simpl; intros H; (discriminate || auto). Qed.

Lemma errorReplyEvent_not_json (a : event) :
  isErrorReplyEvent a = true -> isHeaderSet a = false /\ isEncode a = false.
Proof. destruct a as [X []]; simpl; intros H; (discriminate || auto). Qed.

Section Handlers.
Context (L : GoLib) (w : World).

Lemma sliceIndex_emits X (xs : list X) i tr :
  emits isConvertEvent w (sliceIndex xs i) tr.
Proof.
  unfold sliceIndex. destruct (nth_error xs i).
  - apply emits_ret.
  - now apply emits_panic.
Qed.

Lemma convertChat_emits koboldResp tr :
  emits isConvertEvent w (convertKoboldResponseToOpenAIChatResponse koboldResp) tr.
Proof.
  unfold convertKoboldResponseToOpenAIChatResponse.
  apply emits_bind; [apply sliceIndex_emits|]. intros g tr1.
  apply emits_do_bind; [reflexivity|]. intros id _.
  apply emits_do_bind; [reflexivity|]. intros now _.
  apply emits_bind; [apply sliceIndex_emits|]. intros g1 tr2.
  apply emits_bind; [apply sliceIndex_emits|]. intros g2 tr3.
  apply emits_ret.
Qed.

Lemma convertCompletion_emits koboldResp tr :
  emits isConvertEvent w
    (convertKoboldResponseToOpenAICompletionResponse koboldResp) tr.
Proof.
  unfold convertKoboldResponseToOpenAICompletionResponse.
  apply emits_bind; [apply sliceIndex_emits|]. intros g tr1.
  apply emits_do_bind; [reflexivity|]. intros id _.
  apply emits_do_bind; [reflexivity|]. intros now _.
  apply emits_ret.
Qed.

(** A handler's error reply: a line on standard error and [http.Error]. *)
Lemma errorReply_emits (line : ioE unit) msg code tr :
  isErrorReplyEvent (ev line) = true ->
  emits isErrorReplyEvent w (do line;; do (HttpError msg code)) tr.
Proof.
  intros Hline. apply emits_do_bind; [assumption|]. intros [] _.
  now apply emits_do.
Qed.

(** The events of a run that returned, when the program only adds events
    that are no part of a JSON reply: none sets a header or encodes. *)
Lemma returned_without_reply R (P : event -> bool) (t : prog R) n tr r tr' :
  (forall a, P a = true -> isHeaderSet a = false /\ isEncode a = false) ->
  emits P w t tr ->
  run w n t tr = Returned r tr' ->
  count isHeaderSet tr' = count isHeaderSet tr
  /\ count isEncode tr' = count isEncode tr.
Proof.
  intros HP Hemits Hrun.
  destruct (Hemits n) as (ext & Hext & Hall).
  rewrite Hrun in Hext. simpl in Hext. subst tr'.
  rewrite !count_app.
  rewrite (count_none P isHeaderSet ext), (count_none P isEncode ext);
    auto; intros a Ha; now apply HP.
Qed.

End Handlers.

(** C9. A body that does not decode: either handler answers with
    [http.Error] carrying the text of the decode error and status 400, after
    one line on standard error, and does nothing else; in particular it
    sends neither the submit POST nor a status GET. *)
Theorem handlers_reject_undecodable_body
    (L : GoLib) (w : World) (r : Request.t) (tr : trace) (err : error) :
  (jsonDecodeChatRequest L (Request.Body r) = inl err ->
   exists ext,
     evaluates w (chatCompletionHandler L r) tr (Returned tt (tr ++ ext)%list)
     /\ ext = [ev (Fprintf Stderr "Error decoding request body: %v" [FErr err]);
               ev (HttpError err 400)]
     /\ count isDownstream ext = 0)
  /\ (jsonDecodeCompletionRequest L (Request.Body r) = inl err ->
      exists ext,
        evaluates w (completionHandler L r) tr (Returned tt (tr ++ ext)%list)
        /\ ext = [ev (Fprintln Stderr [FErr err]); ev (HttpError err 400)]
        /\ count isDownstream ext = 0).
Proof.
  split; intros Hdec.
  - exists [ev (Fprintf Stderr "Error decoding request body: %v" [FErr err]);
            ev (HttpError err 400)].
    split; [|split; reflexivity].
    unfold chatCompletionHandler. rewrite Hdec.
    eapply evaluates_do_bind; [reflexivity | | exact I].
    apply evaluates_intro with (n := 2); [|exact I].
    simpl. now rewrite <- app_assoc.
  - exists [ev (Fprintln Stderr [FErr err]); ev (HttpError err 400)].
    split; [|split; reflexivity].
    unfold completionHandler. rewrite Hdec.
    eapply evaluates_do_bind; [reflexivity | | exact I].
    apply evaluates_intro with (n := 2); [|exact I].
    simpl. now rewrite <- app_assoc.
Qed.

Lemma handlers_reject_undecodable_body_witness :
  (exists ext,
     evaluates testWorld
       (chatCompletionHandler testLib (Request.mk [] "{")) []
       (Returned tt ([] ++ ext)%list)
     /\ ext = [ev (Fprintf Stderr "Error decoding request body: %v"
                     [FErr "invalid character"]);
               ev (HttpError "invalid character" 400)]
     /\ count isDownstream ext = 0)
  /\ (exists ext,
        evaluates testWorld
          (completionHandler testLib (Request.mk [] "{")) []
          (Returned tt ([] ++ ext)%list)
        /\ ext = [ev (Fprintln Stderr [FErr "invalid character"]);
                  ev (HttpError "invalid character" 400)]
        /\ count isDownstream ext = 0).
Proof.
  split.
  - apply (proj1 (handlers_reject_undecodable_body
                    testLib testWorld (Request.mk [] "{") []
                    "invalid character")).
    reflexivity.
  - apply (proj2 (handlers_reject_undecodable_body
                    testLib testWorld (Request.mk [] "{") []
                    "invalid character")).
    reflexivity.
Defined.

Section Replies.
Context (L : GoLib) (w : World).

(** Up to the point where a handler has the job's result, nothing has been
    written to the response. *)
Lemma callKoboldAPI_returned_without_reply koboldReq apiKey n tr x tr' :
  run w n (callKoboldAPI L koboldReq apiKey) tr = Returned x tr' ->
  count isHeaderSet tr' = count isHeaderSet tr
  /\ count isEncode tr' = count isEncode tr.
Proof.
  apply returned_without_reply with (P := isClientEvent).
  - apply clientEvent_not_reply.
  - apply callKoboldAPI_emits.
Qed.

Lemma errorReply_returned_without_reply (line : ioE unit) msg code n tr tr' :
  isErrorReplyEvent (ev line) = true ->
  run w n (do line;; do (HttpError msg code)) tr = Returned tt tr' ->
  count isHeaderSet tr' = count isHeaderSet tr
  /\ count isEncode tr' = count isEncode tr.
Proof.
  intros Hline. apply returned_without_reply with (P := isErrorReplyEvent).
  - apply errorReplyEvent_not_json.
  - now apply errorReply_emits.
Qed.

(** The chat handler's run that returned after encoding a reply. *)
Lemma chatCompletionHandler_reply r fuel tr :
  run w fuel (chatCompletionHandler L r) [] = Returned tt tr ->
  0 < count isEncode tr ->
  exists pre chatResp,
    tr = (pre ++ [ev (HeaderSet "Content-Type" "application/json");
                  ev (Encode (ChatPayload chatResp))])%list
    /\ count isHeaderSet pre = 0
    /\ count isEncode pre = 0.
Proof.
  unfold chatCompletionHandler. intros Hrun Henc.
  destruct (jsonDecodeChatRequest L (Request.Body r)) as [err|chatReq].
  { apply errorReply_returned_without_reply in Hrun; [|reflexivity].
    destruct Hrun as [_ Hrun]. rewrite Hrun in Henc. inversion Henc. }
  destruct (run_bind_inv _ _ _ _ _ _ _ _ Hrun I)
    as [([koboldResp err] & tr1 & Hcall & Hk)|(tr1 & _ & Ho)]; [|discriminate].
  apply callKoboldAPI_returned_without_reply in Hcall as [Hh1 He1].
  destruct err as [err|].
  { apply errorReply_returned_without_reply in Hk; [|reflexivity].
    destruct Hk as [_ Hk]. rewrite Hk, He1 in Henc. inversion Henc. }
  destruct (run_bind_inv _ _ _ _ _ _ _ _ Hk I)
    as [(chatResp & tr2 & Hconv & Hk2)|(tr2 & _ & Ho)]; [|discriminate].
  apply returned_without_reply with (P := isConvertEvent) in Hconv as [Hh2 He2];
    [|apply convertEvent_not_reply|apply convertChat_emits].
  assert (Hend : run w 4 (do (Fprintln Stdout [FChatResp chatResp]);;
                          do (HeaderSet "Content-Type" "application/json");;
                          do (Encode (ChatPayload chatResp))) tr2
                 = Returned tt
                     (((tr2 ++ [ev (Fprintln Stdout [FChatResp chatResp])])
                         ++ [ev (HeaderSet "Content-Type" "application/json")])
                        ++ [ev (Encode (ChatPayload chatResp))])%list)
    by reflexivity.
  pose proof (run_deterministic _ _ _ _ _ _ _ _ Hk2 I Hend I) as Heq.
  injection Heq as ->.
  exists (tr2 ++ [ev (Fprintln Stdout [FChatResp chatResp])])%list, chatResp.
  split; [now rewrite <- !app_assoc|].
  rewrite !count_snoc_false by reflexivity.
  rewrite Hh2, He2, Hh1, He1. split; reflexivity.
Qed.

(** The completion handler's run that returned after encoding a reply. *)
Lemma completionHandler_reply r fuel tr :
  run w fuel (completionHandler L r) [] = Returned tt tr ->
  0 < count isEncode tr ->
  exists pre completionResp,
    tr = (pre ++ [ev (Encode (CompletionPayload completionResp))])%list
    /\ count isHeaderSet pre = 0
    /\ count isEncode pre = 0.
Proof.
  unfold completionHandler. intros Hrun Henc.
  destruct (jsonDecodeCompletionRequest L (Request.Body r))
    as [err|completionReq].
  { apply errorReply_returned_without_reply in Hrun; [|reflexivity].
    destruct Hrun as [_ Hrun]. rewrite Hrun in Henc. inversion Henc. }
  destruct (run_bind_inv _ _ _ _ _ _ _ _ Hrun I)
    as [([koboldResp err] & tr1 & Hcall & Hk)|(tr1 & _ & Ho)]; [|discriminate].
  apply callKoboldAPI_returned_without_reply in Hcall as [Hh1 He1].
  destruct err as [err|].
  { apply errorReply_returned_without_reply in Hk; [|reflexivity].
    destruct Hk as [_ Hk]. rewrite Hk, He1 in Henc. inversion Henc. }
  destruct (run_bind_inv _ _ _ _ _ _ _ _ Hk I)
    as [(completionResp & tr2 & Hconv & Hk2)|(tr2 & _ & Ho)]; [|discriminate].
  apply returned_without_reply with (P := isConvertEvent) in Hconv as [Hh2 He2];
    [|apply convertEvent_not_reply|apply convertCompletion_emits].
  assert (Hend : run w 2 (do (Encode (CompletionPayload completionResp))) tr2
                 = Returned tt
                     (tr2 ++ [ev (Encode (CompletionPayload completionResp))])%list)
    by reflexivity.
  pose proof (run_deterministic _ _ _ _ _ _ _ _ Hk2 I Hend I) as Heq.
  injection Heq as ->.
  exists tr2, completionResp.
  split; [reflexivity|].
  rewrite Hh2, He2, Hh1, He1. split; reflexivity.
Qed.

End Replies.

(** C10. The two handlers differ in the headers of a successful reply.  In
    every run of the chat handler that returns having encoded a reply, the
    last two events are setting [Content-Type] to [application/json] and
    encoding the chat response, and nothing before them sets a header or
    encodes.  In every such run of the completion handler the last event is
    encoding the completion response, and the handler sets no header at
    all. *)
Theorem handlers_differ_in_content_type
    (L : GoLib) (w : World) (r : Request.t) (fuel : nat) (tr : trace) :
  (run w fuel (chatCompletionHandler L r) [] = Returned tt tr ->
   0 < count isEncode tr ->
   exists pre chatResp,
     tr = (pre ++ [ev (HeaderSet "Content-Type" "application/json");
                   ev (Encode (ChatPayload chatResp))])%list
     /\ count isHeaderSet pre = 0
     /\ count isEncode pre = 0)
  /\ (run w fuel (completionHandler L r) [] = Returned tt tr ->
      0 < count isEncode tr ->
      exists pre completionResp,
        tr = (pre ++ [ev (Encode (CompletionPayload completionResp))])%list
        /\ count isEncode pre = 0
        /\ count isHeaderSet tr = 0).
Proof.
  split.
  - apply chatCompletionHandler_reply.
  - intros Hrun Henc.
    destruct (completionHandler_reply L w r fuel tr Hrun Henc)
      as (pre & completionResp & -> & Hh & He).
    exists pre, completionResp. split; [reflexivity|]. split; [assumption|].
    now rewrite count_snoc_false.
Qed.

Lemma handlers_differ_in_content_type_witness :
  (exists pre chatResp,
     testChatRun
     = (pre ++ [ev (HeaderSet "Content-Type" "application/json");
                ev (Encode (ChatPayload chatResp))])%list
     /\ count isHeaderSet pre = 0
     /\ count isEncode pre = 0)
  /\ (exists pre completionResp,
        testCompletionRun
        = (pre ++ [ev (Encode (CompletionPayload completionResp))])%list
        /\ count isEncode pre = 0
        /\ count isHeaderSet testCompletionRun = 0).
Proof.
  split.
  - apply (proj1 (handlers_differ_in_content_type
                    testLib testWorld (Request.mk [] "chat") 40 testChatRun)).
    + vm_compute. reflexivity.
    + vm_compute. apply Nat.lt_0_succ.
  - apply (proj2 (handlers_differ_in_content_type
                    testLib testWorld (Request.mk [] "completion") 40
                    testCompletionRun)).
    + vm_compute. reflexivity.
    + vm_compute. apply Nat.lt_0_succ.
Defined.

(** The completion request [{model: m, prompt: Hi, max_tokens: 50}] served
    end to end, the horde answering the second status GET with the text
    [World]: one POST, two GETs, no header set, and the reply encoded last. *)
Example completions_end_to_end :
  last testCompletionRun (ev NewUUID)
  = ev (Encode
          (CompletionPayload
             (OpenAICompletionResponse.mk
                "6ba7b810-9dad-11d1-80b4-00c04fd430c8"
                "text.completion"
                1700000000
                "davinci-codex"
                [OpenAICompletionChoice.mk "World" 0 None "stop"]
                (OpenAIUsage.mk 0 0 0))))
  /\ count isPost testCompletionRun = 1
  /\ count isGet testCompletionRun = 2
  /\ count isHeaderSet testCompletionRun = 0.
Proof. vm_compute. repeat split. Qed.

(** A chat request whose job finishes without generations: the handler
    panics in the conversion, before anything is written to the response. *)
Example chat_handler_panics_without_generations :
  run {| clientDoReply := fun _ _ => inr (HttpResponse.mk 200 "job-1");
         httpGetReply := fun _ _ => inr (HttpResponse.mk 200 "empty");
         uuid := uuid testWorld;
         unixTime := unixTime testWorld |}
      40 (chatCompletionHandler testLib (Request.mk [] "chat")) []
  = Panicked
      [ev (Fprintf Stdout ("Req: %+v" ++ nl)
             [FKoboldReq
                (KoboldAIRequest.mk ("user: Hi" ++ nl) ["m"] false
                   (Params.mk 1024 100))]);
       ev (ClientDo
             (submitted testLib
                (HttpRequest.mk "POST" koboldAPIURL [] ("user: Hi" ++ nl))
                defaultAPIKey));
       ev (Fprintln Stdout [FStr "Sending request to horde"]);
       ev (Fprintf Stdout ("Resp: %+v" ++ nl)
             [FAsyncResp (KoboldAIAsyncResponse.mk "job-1" "")]);
       ev (Fprintln Stdout [FStr "Polling horde with job id "; FStr "job-1"]);
       ev (Sleep (2 * Second));
       ev (HttpGet (koboldStatusURL ++ "job-1"));
       ev (Fprintln Stdout [FPollResp KoboldAIPollResponse.zero]);
       ev (Fprintf Stdout ("Resp: %+v" ++ nl)
             [FPollResp (testStatus true false [])]);
       ev (BodyClose (HttpResponse.mk 200 "empty"));
       ev (BodyClose (HttpResponse.mk 200 "job-1"));
       ev (Panic "runtime error: index out of range [0] with length 0")].
Proof. vm_compute. reflexivity. Qed.

(** * Further properties of the code *)

(** ** The API key of a request *)

Lemma prefix_append (pre s : string) : String.prefix pre (pre ++ s) = true.
Proof.
  induction pre as [|a pre IH]; simpl; [now destruct s|].
  destruct (ascii_dec a a); [exact IH | contradiction].
Qed.

Lemma length_append (a b : string) :
  String.length (a ++ b) = String.length a + String.length b.
Proof. induction a as [|x a IH]; simpl; [reflexivity | now rewrite IH]. Qed.

Lemma substring_all (s : string) : String.substring 0 (String.length s) s = s.
Proof. induction s as [|x s IH]; simpl; [reflexivity | now rewrite IH]. Qed.

Lemma substring_append (pre s : string) (m : nat) :
  String.substring (String.length pre) m (pre ++ s) = String.substring 0 m s.
Proof. induction pre as [|a pre IH]; simpl; [reflexivity | exact IH]. Qed.

(** [strings.TrimPrefix] removes a prefix that is there... *)
Lemma TrimPrefix_append (pre s : string) : TrimPrefix (pre ++ s) pre = s.
Proof.
  unfold TrimPrefix. rewrite prefix_append, length_append, substring_append.
  replace (String.length pre + String.length s - String.length pre)
    with (String.length s) by lia.
  apply substring_all.
Qed.

(** ... and leaves the string alone otherwise. *)
Lemma TrimPrefix_other (pre s : string) :
  String.prefix pre s = false -> TrimPrefix s pre = s.
Proof. unfold TrimPrefix. now intros ->. Qed.

(** X1. The key a handler passes on.  Without an [Authorization] header (or
    with an empty one) it is the default key.  With the header
    [Bearer <key>] it is [<key>], also when [<key>] is empty: the empty key
    is passed on, not the default one; the prefix is removed once only.  Any
    other header value is passed on whole. *)
Theorem apiKeyOf_cases (L : GoLib) (r : Request.t) :
  (headerGet L (Request.Header r) "Authorization" = "" ->
   apiKeyOf L r = defaultAPIKey)
  /\ (forall key,
        headerGet L (Request.Header r) "Authorization" = "Bearer " ++ key ->
        apiKeyOf L r = key)
  /\ (forall value,
        headerGet L (Request.Header r) "Authorization" = value ->
        value <> "" ->
        String.prefix "Bearer " value = false ->
        apiKeyOf L r = value).
Proof.
  unfold apiKeyOf. split; [|split].
  - now intros ->.
  - intros key ->. apply (TrimPrefix_append "Bearer " key).
  - intros value -> Hne Hpre.
    destruct (String.eqb_spec value "") as [Heq|_]; [contradiction|].
    now apply TrimPrefix_other.
Qed.

Lemma apiKeyOf_cases_witness :
  apiKeyOf testLib (Request.mk [] "chat") = defaultAPIKey
  /\ apiKeyOf testLib
       (Request.mk [("Authorization", ["Bearer Bearer k"])] "chat")
     = "Bearer k"
  /\ apiKeyOf testLib (Request.mk [("Authorization", ["Bearer "])] "chat") = ""
  /\ apiKeyOf testLib (Request.mk [("Authorization", ["Basic abc"])] "chat")
     = "Basic abc".
Proof.
  split; [|split; [|split]].
  - apply (proj1 (apiKeyOf_cases testLib (Request.mk [] "chat"))).
    reflexivity.
  - apply (proj1 (proj2 (apiKeyOf_cases testLib
             (Request.mk [("Authorization", ["Bearer Bearer k"])] "chat")))
             "Bearer k").
    reflexivity.
  - apply (proj1 (proj2 (apiKeyOf_cases testLib
             (Request.mk [("Authorization", ["Bearer "])] "chat"))) "").
    reflexivity.
  - apply (proj2 (proj2 (apiKeyOf_cases testLib
             (Request.mk [("Authorization", ["Basic abc"])] "chat")))
             "Basic abc").
    + reflexivity.
    + discriminate.
    + reflexivity.
Defined.

(** ** The prompt of a chat *)

Lemma concatLines_app (msgs1 msgs2 : list openAIChatMessage) :
  concatLines (msgs1 ++ msgs2)%list = concatLines msgs1 ++ concatLines msgs2.
Proof.
  induction msgs1 as [|m msgs1 IH]; simpl; [reflexivity|].
  now rewrite IH, append_assoc.
Qed.

Lemma chatPrompt (model : string) (msgs : list openAIChatMessage) :
  KoboldAIRequest.Prompt
    (convertOpenAIChatRequestToKobold (OpenAIChatRequest.mk model msgs))
  = concatLines msgs.
Proof. unfold convertOpenAIChatRequestToKobold. simpl. apply prompt_loop. Qed.

(** X2. The prompt grows with the conversation: the prompt of a chat is the
    prompt of its first messages followed by the prompt of the rest, so the
    prompt of an earlier state of a conversation is a prefix of every later
    one; nothing is cut off or reordered, however long the chat. *)
Theorem chat_prompt_of_append
    (model model1 model2 : string) (msgs1 msgs2 : list openAIChatMessage) :
  KoboldAIRequest.Prompt
    (convertOpenAIChatRequestToKobold
       (OpenAIChatRequest.mk model (msgs1 ++ msgs2)%list))
  = KoboldAIRequest.Prompt
      (convertOpenAIChatRequestToKobold (OpenAIChatRequest.mk model1 msgs1))
    ++ KoboldAIRequest.Prompt
         (convertOpenAIChatRequestToKobold (OpenAIChatRequest.mk model2 msgs2)).
Proof. rewrite !chatPrompt. apply concatLines_app. Qed.

(** X3. The prompt does not keep the messages apart: one message whose
    content holds a newline followed by [<role>: <content>] gives the same
    job as two messages, whatever the strings.  The author of a message can
    so add messages of any role to the prompt. *)
Theorem chat_prompt_confuses_messages
    (model role1 content1 role2 content2 : string) :
  convertOpenAIChatRequestToKobold
    (OpenAIChatRequest.mk model
       [OpenAIChatMessage.mk role1 (content1 ++ nl ++ role2 ++ ": " ++ content2)])
  = convertOpenAIChatRequestToKobold
      (OpenAIChatRequest.mk model
         [OpenAIChatMessage.mk role1 content1;
          OpenAIChatMessage.mk role2 content2]).
Proof.
  unfold convertOpenAIChatRequestToKobold. rewrite !prompt_loop.
  cbn [OpenAIChatRequest.Messages OpenAIChatRequest.Model concatLines].
  unfold messageLine.
  cbn [OpenAIChatMessage.Role OpenAIChatMessage.Content].
  now rewrite !append_assoc, !append_empty_r.
Qed.

(** ** The poll loop, turn by turn *)

Lemma count_closeEvents (deferred : list httpResponse) :
  count isBodyClose (closeEvents deferred) = List.length deferred
  /\ count isGet (closeEvents deferred) = 0
  /\ count isSleep (closeEvents deferred) = 0.
Proof.
  unfold closeEvents, count.
  induction deferred as [|resp deferred (IH1 & IH2 & IH3)]; simpl; auto.
Qed.

Lemma count_turnsTrace (url : string)
    (turns : list (httpResponse * koboldAIPollResponse)) :
  count isGet (turnsTrace url turns) = List.length turns
  /\ count isSleep (turnsTrace url turns) = List.length turns
  /\ count isBodyClose (turnsTrace url turns) = 0.
Proof.
  unfold turnsTrace.
  induction turns as [|turn turns (IH1 & IH2 & IH3)]; [auto|].
  cbn [flat_map List.length].
  rewrite !count_app, IH1, IH2, IH3. auto.
Qed.

Section Turns.
Context (L : GoLib) (w : World) (url : string).

(** A turn whose GET fails in transport leaves the loop with the error. *)
Lemma pollTurn_get_fails deferred tr err :
  httpGetReply w (count isGet tr) url = inl err ->
  evaluates w (pollTurn L url deferred) tr
    (Returned (inr ((KoboldAIPollResponse.zero, Some err), deferred))
       (tr ++ getFailureEvents url err)%list).
Proof.
  intros Hget. unfold pollTurn.
  eapply evaluates_do_bind; [reflexivity | | exact I].
  eapply evaluates_do_bind; [reflexivity | | exact I].
  rewrite (count_snoc_false isGet) by reflexivity. rewrite Hget.
  eapply evaluates_do_bind; [reflexivity | | exact I].
  apply evaluates_ret_eq.
  unfold getFailureEvents. now rewrite <- !app_assoc.
Qed.

(** A turn whose answer does not decode leaves the loop with the error, the
    close of the answer's body deferred. *)
Lemma pollTurn_decode_fails deferred tr resp err :
  httpGetReply w (count isGet tr) url = inr resp ->
  jsonDecodePollResponse L (HttpResponse.Body resp) = inl err ->
  evaluates w (pollTurn L url deferred) tr
    (Returned (inr ((KoboldAIPollResponse.zero, Some err), resp :: deferred))
       (tr ++ decodeFailureEvents url err)%list).
Proof.
  intros Hget Hdec. unfold pollTurn.
  eapply evaluates_do_bind; [reflexivity | | exact I].
  eapply evaluates_do_bind; [reflexivity | | exact I].
  rewrite (count_snoc_false isGet) by reflexivity. rewrite Hget.
  eapply evaluates_do_bind; [reflexivity | | exact I].
  rewrite Hdec.
  eapply evaluates_do_bind; [reflexivity | | exact I].
  apply evaluates_ret_eq.
  unfold decodeFailureEvents. now rewrite <- !app_assoc.
Qed.

(** The loop takes the unfinished turns one after the other and goes on
    from where they leave it. *)
Lemma pollLoop_unfinished turns : forall deferred tr o,
  unfinishedTurns L w url (count isGet tr) turns ->
  evaluates w (ITree.iter (pollTurn L url) (deferredOf turns ++ deferred)%list)
    (tr ++ turnsTrace url turns)%list o ->
  final o ->
  evaluates w (ITree.iter (pollTurn L url) deferred) tr o.
Proof.
  induction turns as [|[resp st] turns IH]; intros deferred tr o Hturns Hrest Hf.
  - unfold turnsTrace, deferredOf in Hrest. simpl in Hrest.
    now rewrite app_nil_r in Hrest.
  - destruct Hturns as (Hget & Hdec & Hdone & Hturns).
    eapply evaluates_iter_again; [| |exact Hf].
    + apply (pollTurn_again L w url deferred tr resp st Hget Hdec Hdone).
    + apply IH; [| |assumption].
      * rewrite count_app.
        destruct (turnEvents_counts url st) as (_ & -> & _).
        now rewrite Nat.add_1_r.
      * unfold deferredOf, turnsTrace in *.
        cbn [map fst snd rev flat_map] in Hrest.
        now rewrite <- !app_assoc in Hrest |- *.
Qed.

End Turns.

Section PollPaths.
Context (L : GoLib) (w : World) (id : string).

(** [pollKoboldAPI] when the loop leaves after the unfinished turns [turns]:
    the deferred closes follow, then the function returns. *)
Lemma pollKoboldAPI_leaves turns tr ret deferred' tr' :
  unfinishedTurns L w (koboldStatusURL ++ id) (count isGet tr) turns ->
  evaluates w (pollTurn L (koboldStatusURL ++ id) (deferredOf turns))
    (tr ++ turnsTrace (koboldStatusURL ++ id) turns)%list
    (Returned (inr (ret, deferred')) tr') ->
  evaluates w (pollKoboldAPI L id) tr
    (Returned ret (tr' ++ closeEvents deferred')%list).
Proof.
  intros Hturns Hlast. unfold pollKoboldAPI.
  eapply evaluates_bind; [| |exact I].
  - apply pollLoop_unfinished with (turns := turns); [assumption| |exact I].
    rewrite app_nil_r. apply evaluates_iter_leave. exact Hlast.
  - eapply evaluates_bind; [apply runDeferred_evaluates | | exact I].
    apply evaluates_ret.
Qed.

End PollPaths.

(** X4. Response bodies stay open while the loop runs.  When the horde
    answers with the unfinished statuses of [turns] and then with a finished
    one, [pollKoboldAPI] returns the finished status, and its events are
    exactly: one turn per answer (a sleep of two seconds, the GET and two
    prints), and only then the closes of all the answers' bodies, the newest
    first. *)
Theorem pollKoboldAPI_closes_after_the_loop
    (L : GoLib) (w : World) (id : string) (tr : trace)
    (turns : list (httpResponse * koboldAIPollResponse))
    (resp : httpResponse) (st : koboldAIPollResponse) :
  unfinishedTurns L w (koboldStatusURL ++ id) (count isGet tr) turns ->
  httpGetReply w (count isGet tr + List.length turns) (koboldStatusURL ++ id)
  = inr resp ->
  jsonDecodePollResponse L (HttpResponse.Body resp) = inr st ->
  KoboldAIPollResponse.Done st = true ->
  evaluates w (pollKoboldAPI L id) tr
    (Returned (st, None)
       (tr ++ turnsTrace (koboldStatusURL ++ id) turns
           ++ turnEvents (koboldStatusURL ++ id) st
           ++ closeEvents (resp :: deferredOf turns))%list).
Proof.
  intros Hturns Hget Hdec Hdone.
  rewrite !app_assoc.
  apply pollKoboldAPI_leaves with (turns := turns); [assumption|].
  apply pollTurn_done; [|assumption|assumption].
  rewrite count_app.
  destruct (count_turnsTrace (koboldStatusURL ++ id) turns) as (-> & _).
  exact Hget.
Qed.

Lemma pollKoboldAPI_closes_after_the_loop_witness :
  evaluates testWorld (pollKoboldAPI testLib "job-1") []
    (Returned (testStatus true false [testGeneration "World"], None)
       ([] ++ turnsTrace (koboldStatusURL ++ "job-1")
                 [(HttpResponse.mk 200 "faulted", testStatus false true [])]
           ++ turnEvents (koboldStatusURL ++ "job-1")
                (testStatus true false [testGeneration "World"])
           ++ closeEvents
                [HttpResponse.mk 200 "done"; HttpResponse.mk 200 "faulted"])%list).
Proof.
  apply (pollKoboldAPI_closes_after_the_loop testLib testWorld "job-1" []
           [(HttpResponse.mk 200 "faulted", testStatus false true [])]
           (HttpResponse.mk 200 "done")
           (testStatus true false [testGeneration "World"])).
  - repeat split.
  - reflexivity.
  - reflexivity.
  - reflexivity.
Defined.

(** X5. A status GET that fails in transport ends the polling at once.
    After the unfinished statuses of [turns], a failing GET makes
    [pollKoboldAPI] return the zero status with the error of that GET: the
    failure is reported on standard error, the bodies of the earlier answers
    are closed, and no further GET is sent. *)
Theorem pollKoboldAPI_get_failure_is_final
    (L : GoLib) (w : World) (id : string) (tr : trace)
    (turns : list (httpResponse * koboldAIPollResponse)) (err : error) :
  unfinishedTurns L w (koboldStatusURL ++ id) (count isGet tr) turns ->
  httpGetReply w (count isGet tr + List.length turns) (koboldStatusURL ++ id)
  = inl err ->
  exists ext,
    evaluates w (pollKoboldAPI L id) tr
      (Returned (KoboldAIPollResponse.zero, Some err) (tr ++ ext)%list)
    /\ ext = (turnsTrace (koboldStatusURL ++ id) turns
               ++ getFailureEvents (koboldStatusURL ++ id) err
               ++ closeEvents (deferredOf turns))%list
    /\ count isGet ext = S (List.length turns)
    /\ count isBodyClose ext = List.length turns.
Proof.
  intros Hturns Hget. eexists. split; [|split; [reflexivity|]].
  - rewrite !app_assoc.
    apply pollKoboldAPI_leaves with (turns := turns); [assumption|].
    apply pollTurn_get_fails.
    rewrite count_app.
    destruct (count_turnsTrace (koboldStatusURL ++ id) turns) as (-> & _).
    exact Hget.
  - rewrite !count_app.
    destruct (count_turnsTrace (koboldStatusURL ++ id) turns) as (-> & _ & ->).
    destruct (count_closeEvents (deferredOf turns)) as (-> & -> & _).
    unfold deferredOf. rewrite length_rev, length_map.
    split; [change (count isGet (getFailureEvents (koboldStatusURL ++ id) err)) with 1
           |change (count isBodyClose (getFailureEvents (koboldStatusURL ++ id) err)) with 0];
      lia.
Qed.

Lemma pollKoboldAPI_get_failure_is_final_witness :
  exists ext,
    evaluates flakyWorld (pollKoboldAPI testLib "job-1") []
      (Returned (KoboldAIPollResponse.zero,
                 Some "read tcp: connection reset by peer") ([] ++ ext)%list)
    /\ ext = (turnsTrace (koboldStatusURL ++ "job-1")
                 [(HttpResponse.mk 200 "faulted", testStatus false true [])]
               ++ getFailureEvents (koboldStatusURL ++ "job-1")
                    "read tcp: connection reset by peer"
               ++ closeEvents [HttpResponse.mk 200 "faulted"])%list
    /\ count isGet ext = 2
    /\ count isBodyClose ext = 1.
Proof.
  apply (pollKoboldAPI_get_failure_is_final testLib flakyWorld "job-1" []
           [(HttpResponse.mk 200 "faulted", testStatus false true [])]
           "read tcp: connection reset by peer").
  - repeat split.
  - reflexivity.
Defined.

(** X6. A status answer that does not decode ends the polling at once, and
    the HTTP status code of the answer plays no part.  After the unfinished
    statuses of [turns], an answer whose body does not decode makes
    [pollKoboldAPI] return the zero status with the decode error; the bodies
    of all answers, the undecodable one included, are closed. *)
Theorem pollKoboldAPI_decode_failure_is_final
    (L : GoLib) (w : World) (id : string) (tr : trace)
    (turns : list (httpResponse * koboldAIPollResponse))
    (resp : httpResponse) (err : error) :
  unfinishedTurns L w (koboldStatusURL ++ id) (count isGet tr) turns ->
  httpGetReply w (count isGet tr + List.length turns) (koboldStatusURL ++ id)
  = inr resp ->
  jsonDecodePollResponse L (HttpResponse.Body resp) = inl err ->
  exists ext,
    evaluates w (pollKoboldAPI L id) tr
      (Returned (KoboldAIPollResponse.zero, Some err) (tr ++ ext)%list)
    /\ ext = (turnsTrace (koboldStatusURL ++ id) turns
               ++ decodeFailureEvents (koboldStatusURL ++ id) err
               ++ closeEvents (resp :: deferredOf turns))%list
    /\ count isGet ext = S (List.length turns)
    /\ count isBodyClose ext = S (List.length turns).
Proof.
  intros Hturns Hget Hdec. eexists. split; [|split; [reflexivity|]].
  - rewrite !app_assoc.
    apply pollKoboldAPI_leaves with (turns := turns); [assumption|].
    apply pollTurn_decode_fails; [|assumption].
    rewrite count_app.
    destruct (count_turnsTrace (koboldStatusURL ++ id) turns) as (-> & _).
    exact Hget.
  - rewrite !count_app.
    destruct (count_turnsTrace (koboldStatusURL ++ id) turns) as (-> & _ & ->).
    destruct (count_closeEvents (resp :: deferredOf turns)) as (-> & -> & _).
    cbn [List.length]. unfold deferredOf. rewrite length_rev, length_map.
    split; [change (count isGet (decodeFailureEvents (koboldStatusURL ++ id) err)) with 1
           |change (count isBodyClose (decodeFailureEvents (koboldStatusURL ++ id) err)) with 0];
      lia.
Qed.

Lemma pollKoboldAPI_decode_failure_is_final_witness :
  exists ext,
    evaluates garbledWorld (pollKoboldAPI testLib "job-1") []
      (Returned (KoboldAIPollResponse.zero,
                 Some "unexpected end of JSON input") ([] ++ ext)%list)
    /\ ext = (turnsTrace (koboldStatusURL ++ "job-1")
                 [(HttpResponse.mk 200 "faulted", testStatus false true [])]
               ++ decodeFailureEvents (koboldStatusURL ++ "job-1")
                    "unexpected end of JSON input"
               ++ closeEvents
                    [HttpResponse.mk 502 "<html>";
                     HttpResponse.mk 200 "faulted"])%list
    /\ count isGet ext = 2
    /\ count isBodyClose ext = 2.
Proof.
  apply (pollKoboldAPI_decode_failure_is_final testLib garbledWorld "job-1" []
           [(HttpResponse.mk 200 "faulted", testStatus false true [])]
           (HttpResponse.mk 502 "<html>") "unexpected end of JSON input").
  - repeat split.
  - reflexivity.
  - reflexivity.
Defined.

(** ** Submitting, path by path *)

Section Submit.
Context (L : GoLib) (w : World).

Lemma callKoboldAPI_after_submit koboldReq apiKey tr reqBody req resp job
    st perr tr2 :
  jsonMarshal L koboldReq = inr reqBody ->
  httpNewRequest L "POST" koboldAPIURL reqBody = inr req ->
  clientDoReply w (count isPost tr) (submitted L req apiKey) = inr resp ->
  jsonDecodeAsyncResponse L (HttpResponse.Body resp) = inr job ->
  evaluates w (pollKoboldAPI L (KoboldAIAsyncResponse.ID job))
    (tr ++ submitEvents koboldReq (submitted L req apiKey) job)%list
    (Returned (st, perr) tr2) ->
  evaluates w (callKoboldAPI L koboldReq apiKey) tr
    (Returned (pollOutcome st perr)
       (tr2 ++ pollErrorEvents perr ++ [ev (BodyClose resp)])%list).
Proof.
  intros Hmarshal Hreq Hdo Hdec Hpoll. unfold callKoboldAPI.
  eapply evaluates_do_bind; [reflexivity | | exact I].
  rewrite Hmarshal, Hreq.
  eapply evaluates_do_bind; [reflexivity | | exact I].
  rewrite (count_snoc_false isPost) by reflexivity.
  fold (submitted L req apiKey). rewrite Hdo.
  eapply evaluates_do_bind; [reflexivity | | exact I].
  rewrite Hdec.
  eapply evaluates_bind with (x := pollOutcome st perr)
                             (tr' := (tr2 ++ pollErrorEvents perr)%list);
    [| |exact I].
  - eapply evaluates_do_bind; [reflexivity | | exact I].
    eapply evaluates_do_bind; [reflexivity | | exact I].
    eapply evaluates_bind; [| |exact I].
    + unfold submitEvents in Hpoll.
      rewrite <- !app_assoc. exact Hpoll.
    + destruct perr as [err|]; cbn [pollOutcome pollErrorEvents].
      * eapply evaluates_do_bind; [reflexivity | | exact I].
        apply evaluates_ret.
      * rewrite app_nil_r. apply evaluates_ret.
  - eapply evaluates_do_bind; [reflexivity | | exact I].
    apply evaluates_ret_eq. now rewrite <- app_assoc.
Qed.

End Submit.


(** X8. An answer to the submit POST that does not decode is an error, and
    the job is not polled.  [callKoboldAPI] returns the zero status with the
    decode error; the answer's body is closed, and no status GET or sleep
    follows.  The status code of the answer plays no part. *)
Theorem callKoboldAPI_undecodable_answer_never_polls
    (L : GoLib) (w : World) (koboldReq : koboldAIRequest) (apiKey : string)
    (tr : trace) (reqBody : string) (req : httpRequest)
    (resp : httpResponse) (err : error) :
  jsonMarshal L koboldReq = inr reqBody ->
  httpNewRequest L "POST" koboldAPIURL reqBody = inr req ->
  clientDoReply w (count isPost tr) (submitted L req apiKey) = inr resp ->
  jsonDecodeAsyncResponse L (HttpResponse.Body resp) = inl err ->
  evaluates w (callKoboldAPI L koboldReq apiKey) tr
    (Returned (KoboldAIPollResponse.zero, Some err)
       (tr ++ [ev (Fprintf Stdout ("Req: %+v" ++ nl) [FKoboldReq koboldReq]);
               ev (ClientDo (submitted L req apiKey));
               ev (Fprintln Stdout [FStr "Sending request to horde"]);
               ev (Fprintln Stderr
                     [FSprintf "Error occurred at %s:%d: %v"
                        [FStr (sourceFile L); FInt 252; FErr err]]);
               ev (BodyClose resp)])%list).
Proof.
  intros Hmarshal Hreq Hdo Hdec. unfold callKoboldAPI.
  eapply evaluates_do_bind; [reflexivity | | exact I].
  rewrite Hmarshal, Hreq.
  eapply evaluates_do_bind; [reflexivity | | exact I].
  rewrite (count_snoc_false isPost) by reflexivity.
  fold (submitted L req apiKey). rewrite Hdo.
  eapply evaluates_do_bind; [reflexivity | | exact I].
  rewrite Hdec.
  eapply evaluates_bind; [| |exact I].
  - eapply evaluates_do_bind; [reflexivity | | exact I].
    apply evaluates_ret.
  - eapply evaluates_do_bind; [reflexivity | | exact I].
    apply evaluates_ret_eq. now rewrite <- !app_assoc.
Qed.

(** X9. What [callKoboldAPI] does once the horde has answered the submit
    POST with a body that decodes: it polls the job id of that answer,
    whatever the status code of the answer and also when the id is empty;
    it returns the status the poll loop returned when that came without
    error, and the zero status with the loop's error otherwise, which it
    reports on standard error; and it closes the body of the POST's answer
    last, after the loop has ended. *)
Theorem callKoboldAPI_returns_what_the_poll_returns
    (L : GoLib) (w : World) (koboldReq : koboldAIRequest) (apiKey : string)
    (tr : trace) (reqBody : string) (req : httpRequest)
    (resp : httpResponse) (job : koboldAIAsyncResponse)
    (st : koboldAIPollResponse) (perr : option error) (tr2 : trace) :
  jsonMarshal L koboldReq = inr reqBody ->
  httpNewRequest L "POST" koboldAPIURL reqBody = inr req ->
  clientDoReply w (count isPost tr) (submitted L req apiKey) = inr resp ->
  jsonDecodeAsyncResponse L (HttpResponse.Body resp) = inr job ->
  evaluates w (pollKoboldAPI L (KoboldAIAsyncResponse.ID job))
    (tr ++ submitEvents koboldReq (submitted L req apiKey) job)%list
    (Returned (st, perr) tr2) ->
  evaluates w (callKoboldAPI L koboldReq apiKey) tr
    (Returned (pollOutcome st perr)
       (tr2 ++ pollErrorEvents perr ++ [ev (BodyClose resp)])%list).
Proof. apply callKoboldAPI_after_submit. Qed.

(** ** Reading a run backwards *)

Section Backwards.
Context (w : World).

Lemma run_ret_inv R (r r' : R) n tr tr' :
  run w n (Ret r) tr = Returned r' tr' -> r' = r /\ tr' = tr.
Proof. destruct n; simpl; [discriminate|]. intros H. now injection H. Qed.

Lemma run_do_bind_inv X R (e : ioE X) (k : X -> prog R) n tr o x :
  run w n (ITree.bind (do e) k) tr = o -> final o ->
  handle w tr e = Some x ->
  run w n (k x) (tr ++ [ev e])%list = o.
Proof.
  intros Hrun Hf Hh. destruct n as [|n].
  - simpl in Hrun. subst o. contradiction.
  - rewrite run_do_bind, Hh in Hrun.
    apply run_le with (n := n); auto.
Qed.

Lemma run_do_inv X (e : ioE X) n tr x' tr' x :
  run w n (do e) tr = Returned x' tr' ->
  handle w tr e = Some x ->
  x' = x /\ tr' = (tr ++ [ev e])%list.
Proof.
  intros Hrun Hh.
  assert (H2 : run w 2 (do e) tr = Returned x (tr ++ [ev e])%list)
    by (simpl; now rewrite Hh).
  pose proof (run_deterministic _ _ _ _ _ _ _ _ Hrun I H2 I) as Heq.
  now injection Heq.
Qed.

(** A run that panicked ends with the panic. *)
Lemma run_panicked_last R (t : prog R) n : forall tr tr',
  run w n t tr = Panicked tr' ->
  exists ext msg, tr' = (tr ++ ext ++ [ev (Panic msg)])%list.
Proof.
  revert t. induction n as [|n IH]; intros t tr tr' Hrun; [discriminate|].
  rewrite run_S in Hrun. destruct (observe t) as [r|t'|X e k]; [discriminate| |].
  - now apply IH with (t := t').
  - destruct (handle w tr e) as [x|] eqn:Hh.
    + destruct (IH _ _ _ Hrun) as (ext & msg & ->).
      exists (ev e :: ext), msg. now rewrite <- app_assoc.
    + injection Hrun as <-. destruct e; try discriminate.
      exists [], msg. reflexivity.
Qed.

(** A program that only adds events other than panics does not panic. *)
Lemma emits_never_panics R (P : event -> bool) (t : prog R) n tr tr' :
  (forall a, P a = true -> isPanic a = false) ->
  emits P w t tr ->
  run w n t tr <> Panicked tr'.
Proof.
  intros HP Hemits Hrun.
  destruct (Hemits n) as (ext & Hext & Hall).
  rewrite Hrun in Hext. simpl in Hext.
  destruct (run_panicked_last _ _ _ _ _ Hrun) as (ext' & msg & Heq).
  rewrite Heq in Hext. apply app_inv_head in Hext. subst ext.
  rewrite forallb_app in Hall. apply andb_prop in Hall as [_ Hall].
  simpl in Hall. rewrite andb_true_r in Hall.
  apply HP in Hall. discriminate.
Qed.

(** The events a run has added leave a count alone when the program only
    adds events that do not count. *)
Lemma emits_keeps_count R (P f : event -> bool) (t : prog R) n tr :
  (forall a, P a = true -> f a = false) ->
  emits P w t tr ->
  count f (traceOf (run w n t tr)) = count f tr.
Proof.
  intros HP Hemits. destruct (Hemits n) as (ext & -> & Hall).
  rewrite count_app, (count_none P f ext HP Hall). apply Nat.add_0_r.
Qed.

(** The rule of the loop invariant, for the runs of a loop that return. *)
Lemma run_iter_invariant St R (body : St -> prog (St + R))
    (Inv : St -> trace -> Prop) (Post : R -> trace -> Prop) :
  (forall i tr n i' tr',
      Inv i tr -> run w n (body i) tr = Returned (inl i') tr' -> Inv i' tr') ->
  (forall i tr n r tr',
      Inv i tr -> run w n (body i) tr = Returned (inr r) tr' -> Post r tr') ->
  forall n i tr r tr',
    Inv i tr -> run w n (ITree.iter body i) tr = Returned r tr' -> Post r tr'.
Proof.
  intros Hagain Hleave n.
  induction n as [n IH] using lt_wf_ind. intros i tr r tr' Hinv Hrun.
  destruct (run_iter_inv _ _ _ _ _ _ _ _ Hrun I)
    as [(r' & tr1 & Hb & Ho)|[(i' & tr1 & m & Hb & Hm & Hrest)|(tr1 & _ & Ho)]];
    [| |discriminate].
  - injection Ho as -> ->. eapply Hleave; eauto.
  - eapply IH; [exact Hm | | exact Hrest]. eapply Hagain; eauto.
Qed.

End Backwards.

Section TurnBackwards.
Context (L : GoLib) (w : World) (url : string).

(** The four ways a turn of the poll loop can end. *)
Lemma pollTurn_inv deferred n tr x tr' :
  run w n (pollTurn L url deferred) tr = Returned x tr' ->
  (exists err,
      x = inr ((KoboldAIPollResponse.zero, Some err), deferred)
      /\ tr' = (tr ++ getFailureEvents url err)%list)
  \/ (exists resp err,
         x = inr ((KoboldAIPollResponse.zero, Some err), resp :: deferred)
         /\ tr' = (tr ++ decodeFailureEvents url err)%list)
  \/ (exists resp st,
         KoboldAIPollResponse.Done st = true
         /\ x = inr ((st, None), resp :: deferred)
         /\ tr' = (tr ++ turnEvents url st)%list)
  \/ (exists resp st,
         KoboldAIPollResponse.Done st = false
         /\ x = inl (resp :: deferred)
         /\ tr' = (tr ++ turnEvents url st)%list).
Proof.
  intros Hrun.
  destruct (httpGetReply w (count isGet tr) url) as [err|resp] eqn:Hget.
  { destruct (evaluates_run _ _ _ _ _
                (pollTurn_get_fails L w url deferred tr err Hget)) as [m Hm].
    pose proof (run_deterministic _ _ _ _ _ _ _ _ Hrun I Hm I) as Heq.
    injection Heq as -> ->. left. eauto. }
  destruct (jsonDecodePollResponse L (HttpResponse.Body resp))
    as [err|st] eqn:Hdec.
  { destruct (evaluates_run _ _ _ _ _
                (pollTurn_decode_fails L w url deferred tr resp err Hget Hdec))
      as [m Hm].
    pose proof (run_deterministic _ _ _ _ _ _ _ _ Hrun I Hm I) as Heq.
    injection Heq as -> ->. right. left. eauto. }
  destruct (KoboldAIPollResponse.Done st) eqn:Hdone.
  - destruct (evaluates_run _ _ _ _ _
                (pollTurn_done L w url deferred tr resp st Hget Hdec Hdone))
      as [m Hm].
    pose proof (run_deterministic _ _ _ _ _ _ _ _ Hrun I Hm I) as Heq.
    injection Heq as -> ->. right. right. left. eauto.
  - destruct (evaluates_run _ _ _ _ _
                (pollTurn_again L w url deferred tr resp st Hget Hdec Hdone))
      as [m Hm].
    pose proof (run_deterministic _ _ _ _ _ _ _ _ Hrun I Hm I) as Heq.
    injection Heq as -> ->. right. right. right. eauto.
Qed.

End TurnBackwards.

(** ** What every return of the client guarantees *)

Lemma pollBlocks_counts (url : string) (st : koboldAIPollResponse)
    (err : error) :
  (forallb isPollEvent (turnEvents url st) = true
   /\ count isGet (turnEvents url st) = 1
   /\ count isSleep (turnEvents url st) = 1
   /\ count isBodyClose (turnEvents url st) = 0)
  /\ (forallb isPollEvent (getFailureEvents url err) = true
      /\ count isGet (getFailureEvents url err) = 1
      /\ count isSleep (getFailureEvents url err) = 1
      /\ count isBodyClose (getFailureEvents url err) = 0)
  /\ (forallb isPollEvent (decodeFailureEvents url err) = true
      /\ count isGet (decodeFailureEvents url err) = 1
      /\ count isSleep (decodeFailureEvents url err) = 1
      /\ count isBodyClose (decodeFailureEvents url err) = 0).
Proof. repeat split. Qed.

Lemma closeEvents_poll (deferred : list httpResponse) :
  forallb isPollEvent (closeEvents deferred) = true.
Proof. induction deferred; simpl; auto. Qed.

Section ClientInvariant.
Context (L : GoLib) (w : World).

(** The loop of [pollKoboldAPI], whatever the horde answers: when it leaves,
    it has slept once before each GET, closed nothing yet, and deferred the
    close of each answer it got. *)
Lemma pollLoop_invariant url fuel tr st perr deferred tr' :
  run w fuel (ITree.iter (pollTurn L url) []) tr
  = Returned ((st, perr), deferred) tr' ->
  exists ext,
    tr' = (tr ++ ext)%list
    /\ forallb isPollEvent ext = true
    /\ count isSleep ext = count isGet ext
    /\ 1 <= count isGet ext
    /\ count isBodyClose ext = 0
    /\ match perr with
       | None =>
           KoboldAIPollResponse.Done st = true
           /\ List.length deferred = count isGet ext
       | Some _ =>
           st = KoboldAIPollResponse.zero
           /\ List.length deferred <= count isGet ext
           /\ count isGet ext <= S (List.length deferred)
       end.
Proof.
  apply (run_iter_invariant w _ _ (pollTurn L url)
           (fun ds tr1 =>
              exists ext,
                tr1 = (tr ++ ext)%list
                /\ forallb isPollEvent ext = true
                /\ count isSleep ext = count isGet ext
                /\ count isBodyClose ext = 0
                /\ List.length ds = count isGet ext)
           (fun r tr1 =>
              exists ext,
                tr1 = (tr ++ ext)%list
                /\ forallb isPollEvent ext = true
                /\ count isSleep ext = count isGet ext
                /\ 1 <= count isGet ext
                /\ count isBodyClose ext = 0
                /\ match snd (fst r) with
                   | None =>
                       KoboldAIPollResponse.Done (fst (fst r)) = true
                       /\ List.length (snd r) = count isGet ext
                   | Some _ =>
                       fst (fst r) = KoboldAIPollResponse.zero
                       /\ List.length (snd r) <= count isGet ext
                       /\ count isGet ext <= S (List.length (snd r))
                   end)).
  - intros ds tr1 n ds' tr1' (ext & -> & Hall & Hsl & Hcl & Hlen) Hturn.
    destruct (pollTurn_inv L w url ds n _ _ _ Hturn)
      as [(err & Hx & _)|[(resp & err & Hx & _)
         |[(resp & st' & _ & Hx & _)|(resp & st' & Hdone & Hx & ->)]]];
      try discriminate.
    injection Hx as ->.
    destruct (pollBlocks_counts url st' "") as ((Hp & Hg & Hs & Hc) & _).
    exists (ext ++ turnEvents url st')%list.
    rewrite app_assoc, forallb_app, !count_app, Hall, Hp, Hg, Hs, Hc.
    cbn [List.length]. repeat split; lia.
  - intros ds tr1 n r tr1' (ext & -> & Hall & Hsl & Hcl & Hlen) Hturn.
    destruct (pollTurn_inv L w url ds n _ _ _ Hturn)
      as [(err & Hx & ->)|[(resp & err & Hx & ->)
         |[(resp & st' & Hdone & Hx & ->)|(resp & st' & _ & Hx & _)]]];
      try discriminate; injection Hx as ->; cbn [fst snd List.length].
    + destruct (pollBlocks_counts url st err) as (_ & (Hp & Hg & Hs & Hc) & _).
      exists (ext ++ getFailureEvents url err)%list.
      rewrite app_assoc, forallb_app, !count_app, Hall, Hp, Hg, Hs, Hc.
      repeat split; lia.
    + destruct (pollBlocks_counts url st err) as (_ & _ & (Hp & Hg & Hs & Hc)).
      exists (ext ++ decodeFailureEvents url err)%list.
      rewrite app_assoc, forallb_app, !count_app, Hall, Hp, Hg, Hs, Hc.
      repeat split; lia.
    + destruct (pollBlocks_counts url st' "") as ((Hp & Hg & Hs & Hc) & _).
      exists (ext ++ turnEvents url st')%list.
      rewrite app_assoc, forallb_app, !count_app, Hall, Hp, Hg, Hs, Hc.
      repeat split; (assumption || lia).
  - exists []. rewrite app_nil_r. repeat split.
Qed.

Lemma pollKoboldAPI_invariant id fuel tr st perr tr' :
  run w fuel (pollKoboldAPI L id) tr = Returned (st, perr) tr' ->
  exists ext,
    tr' = (tr ++ ext)%list
    /\ forallb isPollEvent ext = true
    /\ count isSleep ext = count isGet ext
    /\ 1 <= count isGet ext
    /\ match perr with
       | None =>
           KoboldAIPollResponse.Done st = true
           /\ count isBodyClose ext = count isGet ext
       | Some _ =>
           st = KoboldAIPollResponse.zero
           /\ count isBodyClose ext <= count isGet ext
           /\ count isGet ext <= S (count isBodyClose ext)
       end.
Proof.
  unfold pollKoboldAPI. intros Hrun.
  destruct (run_bind_inv _ _ _ _ _ _ _ _ Hrun I)
    as [([[st0 perr0] deferred] & tr1 & Hloop & Hk)|(tr1 & _ & Ho)];
    [|discriminate].
  destruct (pollLoop_invariant _ _ _ _ _ _ _ Hloop)
    as (ext & -> & Hall & Hsl & Hge & Hcl & Hres).
  assert (Hfwd : evaluates w (runDeferred deferred;; Ret (st0, perr0))
                   (tr ++ ext)%list
                   (Returned (st0, perr0)
                      ((tr ++ ext) ++ closeEvents deferred)%list)).
  { eapply evaluates_bind; [apply runDeferred_evaluates | | exact I].
    apply evaluates_ret. }
  destruct (evaluates_run _ _ _ _ _ Hfwd) as [m Hm].
  pose proof (run_deterministic _ _ _ _ _ _ _ _ Hk I Hm I) as Heq.
  injection Heq as -> -> ->.
  destruct (count_closeEvents deferred) as (Hc & Hg & Hs).
  exists (ext ++ closeEvents deferred)%list.
  rewrite app_assoc, forallb_app, !count_app, Hall, closeEvents_poll,
    Hc, Hg, Hs, Hcl.
  split; [reflexivity|]. split; [reflexivity|]. split; [lia|]. split; [lia|].
  destruct perr0; [destruct Hres as (? & ? & ?) | destruct Hres as (? & ?)];
    repeat split; (assumption || lia).
Qed.

End ClientInvariant.

(** X10. What [pollKoboldAPI] guarantees whenever it returns, whatever the
    horde answers.  It has sent at least one status GET, has slept before
    each one, and has sent no POST.  If it returns no error, the status it
    returns has [done] set and the body of every answer has been closed.  If
    it returns an error, the status is the zero status, and every body but
    possibly that of the last GET (the one that failed) has been closed. *)
Theorem pollKoboldAPI_guarantees
    (L : GoLib) (w : World) (id : string) (fuel : nat) (tr : trace)
    (st : koboldAIPollResponse) (perr : option error) (tr' : trace) :
  run w fuel (pollKoboldAPI L id) tr = Returned (st, perr) tr' ->
  exists ext,
    tr' = (tr ++ ext)%list
    /\ count isPost ext = 0
    /\ count isSleep ext = count isGet ext
    /\ 1 <= count isGet ext
    /\ match perr with
       | None =>
           KoboldAIPollResponse.Done st = true
           /\ count isBodyClose ext = count isGet ext
       | Some _ =>
           st = KoboldAIPollResponse.zero
           /\ count isBodyClose ext <= count isGet ext
           /\ count isGet ext <= S (count isBodyClose ext)
       end.
Proof.
  intros Hrun.
  destruct (pollKoboldAPI_invariant L w id fuel tr st perr tr' Hrun)
    as (ext & -> & Hall & Hsl & Hge & Hres).
  exists ext. split; [reflexivity|]. split; [|auto].
  apply (count_none isPollEvent); [|assumption].
  intros [X []]; simpl; intros H; (discriminate || reflexivity).
Qed.

Lemma pollKoboldAPI_guarantees_witness :
  exists ext,
    testPollRun = ([] ++ ext)%list
    /\ count isPost ext = 0
    /\ count isSleep ext = count isGet ext
    /\ 1 <= count isGet ext
    /\ KoboldAIPollResponse.Done
         (testStatus true false [testGeneration "World"]) = true
    /\ count isBodyClose ext = count isGet ext.
Proof.
  apply (pollKoboldAPI_guarantees testLib testWorld "job-1" 20 []
           (testStatus true false [testGeneration "World"]) None testPollRun).
  vm_compute. reflexivity.
Defined.

Section CallInvariant.
Context (L : GoLib) (w : World).

Lemma callKoboldAPI_invariant koboldReq apiKey fuel tr st perr tr' :
  run w fuel (callKoboldAPI L koboldReq apiKey) tr = Returned (st, perr) tr' ->
  exists ext,
    tr' = (tr ++ ext)%list
    /\ count isPost ext <= 1
    /\ (1 <= count isGet ext -> count isPost ext = 1)
    /\ count isSleep ext = count isGet ext
    /\ match perr with
       | None =>
           KoboldAIPollResponse.Done st = true
           /\ count isPost ext = 1
           /\ 1 <= count isGet ext
           /\ count isBodyClose ext = S (count isGet ext)
       | Some _ => st = KoboldAIPollResponse.zero
       end.
Proof.
  unfold callKoboldAPI. intros Hrun.
  eapply run_do_bind_inv in Hrun; [|exact I|reflexivity].
  destruct (jsonMarshal L koboldReq) as [err|reqBody].
  { unfold Caller in Hrun. cbv beta iota in Hrun.
    eapply run_do_bind_inv in Hrun; [|exact I|reflexivity].
    apply run_ret_inv in Hrun as [Hx ->]. injection Hx as -> ->.
    eexists. rewrite <- !app_assoc. split; [reflexivity|].
    cbn. repeat split; lia. }
  destruct (httpNewRequest L "POST" koboldAPIURL reqBody) as [err|req].
  { unfold Caller in Hrun. cbv beta iota in Hrun.
    eapply run_do_bind_inv in Hrun; [|exact I|reflexivity].
    apply run_ret_inv in Hrun as [Hx ->]. injection Hx as -> ->.
    eexists. rewrite <- !app_assoc. split; [reflexivity|].
    cbn. repeat split; lia. }
  eapply run_do_bind_inv in Hrun; [|exact I|reflexivity].
  eapply run_do_bind_inv in Hrun; [|exact I|reflexivity].
  fold (submitted L req apiKey) in Hrun.
  destruct (clientDoReply w _ (submitted L req apiKey)) as [err|resp].
  { unfold Caller in Hrun. cbv beta iota in Hrun.
    eapply run_do_bind_inv in Hrun; [|exact I|reflexivity].
    apply run_ret_inv in Hrun as [Hx ->]. injection Hx as -> ->.
    eexists. rewrite <- !app_assoc. split; [reflexivity|].
    cbn. repeat split; lia. }
  destruct (run_bind_inv _ _ _ _ _ _ _ _ Hrun I)
    as [(ret & tr1 & Hinner & Houter)|(tr1 & _ & Ho)]; [|discriminate].
  eapply run_do_bind_inv in Houter; [|exact I|reflexivity].
  apply run_ret_inv in Houter as [Hret ->]. subst ret.
  destruct (jsonDecodeAsyncResponse L (HttpResponse.Body resp)) as [err|job].
  { unfold Caller in Hinner. cbv beta iota in Hinner.
    eapply run_do_bind_inv in Hinner; [|exact I|reflexivity].
    apply run_ret_inv in Hinner as [Hx ->]. injection Hx as -> ->.
    eexists. rewrite <- !app_assoc. split; [reflexivity|].
    cbn. repeat split; lia. }
  eapply run_do_bind_inv in Hinner; [|exact I|reflexivity].
  eapply run_do_bind_inv in Hinner; [|exact I|reflexivity].
  destruct (run_bind_inv _ _ _ _ _ _ _ _ Hinner I)
    as [([st0 perr0] & tr2 & Hpoll & Hk)|(tr2 & _ & Ho)]; [|discriminate].
  destruct (pollKoboldAPI_invariant L w _ _ _ _ _ _ Hpoll)
    as (ext & -> & Hall & Hsl & Hge & Hres).
  assert (Hpost : count isPost ext = 0).
  { apply (count_none isPollEvent); [|assumption].
    intros [X []]; simpl; intros H; (discriminate || reflexivity). }
  destruct perr0 as [err|].
  - eapply run_do_bind_inv in Hk; [|exact I|reflexivity].
    apply run_ret_inv in Hk as [Hx ->]. injection Hx as -> ->.
    eexists. rewrite <- !app_assoc. split; [reflexivity|].
    rewrite !count_app, Hpost, Hsl. cbn. repeat split; lia.
  - apply run_ret_inv in Hk as [Hx ->]. injection Hx as -> ->.
    destruct Hres as [Hdone Hclose].
    eexists. rewrite <- !app_assoc. split; [reflexivity|].
    rewrite !count_app, Hpost, Hsl, Hclose. cbn.
    repeat split; (assumption || lia).
Qed.

End CallInvariant.

(** X11. What [callKoboldAPI] guarantees whenever it returns, whatever the
    libraries and the horde answer.  It has sent at most one submit POST (it
    never resubmits), no status GET without that POST, and has slept once
    per GET.  If it returns no error, the status it returns has [done] set,
    and the bodies of all answers, the POST's and the GETs', have been
    closed.  If it returns an error, the status is the zero status. *)
Theorem callKoboldAPI_guarantees
    (L : GoLib) (w : World) (koboldReq : koboldAIRequest) (apiKey : string)
    (fuel : nat) (tr : trace)
    (st : koboldAIPollResponse) (perr : option error) (tr' : trace) :
  run w fuel (callKoboldAPI L koboldReq apiKey) tr = Returned (st, perr) tr' ->
  exists ext,
    tr' = (tr ++ ext)%list
    /\ count isPost ext <= 1
    /\ (1 <= count isGet ext -> count isPost ext = 1)
    /\ count isSleep ext = count isGet ext
    /\ match perr with
       | None =>
           KoboldAIPollResponse.Done st = true
           /\ count isPost ext = 1
           /\ 1 <= count isGet ext
           /\ count isBodyClose ext = S (count isGet ext)
       | Some _ => st = KoboldAIPollResponse.zero
       end.
Proof. apply callKoboldAPI_invariant. Qed.

Lemma callKoboldAPI_guarantees_witness :
  exists ext,
    testCallRun = ([] ++ ext)%list
    /\ count isPost ext <= 1
    /\ (1 <= count isGet ext -> count isPost ext = 1)
    /\ count isSleep ext = count isGet ext
    /\ KoboldAIPollResponse.Done
         (testStatus true false [testGeneration "World"]) = true
    /\ count isPost ext = 1
    /\ 1 <= count isGet ext
    /\ count isBodyClose ext = S (count isGet ext).
Proof.
  apply (callKoboldAPI_guarantees testLib testWorld
           (KoboldAIRequest.mk "Hi" ["m"] false (Params.mk 1024 50))
           defaultAPIKey 40 []
           (testStatus true false [testGeneration "World"]) None testCallRun).
  vm_compute. reflexivity.
Defined.

Lemma clientEvent_not_panic (a : event) :
  isClientEvent a = true -> isPanic a = false.
Proof. destruct a as [X []]; simpl; intros H; (discriminate || auto). Qed.

Lemma clientEvent_not_written (a : event) :
  isClientEvent a = true -> isReplyEvent a = false.
Proof. destruct a as [X []]; simpl; intros H; (discriminate || auto). Qed.

(** X12. [callKoboldAPI] never panics and never writes to the response of
    the inbound request, however far it runs and whatever the libraries and
    the horde answer. *)
Theorem callKoboldAPI_never_panics
    (L : GoLib) (w : World) (koboldReq : koboldAIRequest) (apiKey : string)
    (fuel : nat) (tr : trace) :
  (forall tr', run w fuel (callKoboldAPI L koboldReq apiKey) tr <> Panicked tr')
  /\ count isReplyEvent
       (traceOf (run w fuel (callKoboldAPI L koboldReq apiKey) tr))
     = count isReplyEvent tr.
Proof.
  split.
  - intros tr'. apply emits_never_panics with (P := isClientEvent).
    + apply clientEvent_not_panic.
    + apply callKoboldAPI_emits.
  - apply emits_keeps_count with (P := isClientEvent).
    + apply clientEvent_not_written.
    + apply callKoboldAPI_emits.
Qed.

(** ** The handlers, from the client's result to the reply *)

Section Reply.
Context (L : GoLib) (w : World).

Lemma convertChat_panics koboldResp tr :
  KoboldAIPollResponse.Generations koboldResp = [] ->
  evaluates w (convertKoboldResponseToOpenAIChatResponse koboldResp) tr
    (Panicked (tr ++ [indexPanic])%list).
Proof.
  intros Hg. unfold convertKoboldResponseToOpenAIChatResponse. rewrite Hg.
  apply evaluates_bind_panicked.
  apply (sliceIndex_none w generation [] 0 tr eq_refl).
Qed.

Lemma convertCompletion_panics koboldResp tr :
  KoboldAIPollResponse.Generations koboldResp = [] ->
  evaluates w (convertKoboldResponseToOpenAICompletionResponse koboldResp) tr
    (Panicked (tr ++ [indexPanic])%list).
Proof.
  intros Hg. unfold convertKoboldResponseToOpenAICompletionResponse. rewrite Hg.
  apply evaluates_bind_panicked.
  apply (sliceIndex_none w generation [] 0 tr eq_refl).
Qed.

Lemma chatReplyOutcome_final st perr tr : final (chatReplyOutcome w st perr tr).
Proof.
  unfold chatReplyOutcome.
  destruct perr; [exact I|].
  destruct (KoboldAIPollResponse.Generations st); exact I.
Qed.

Lemma completionReplyOutcome_final st perr tr :
  final (completionReplyOutcome w st perr tr).
Proof.
  unfold completionReplyOutcome.
  destruct perr; [exact I|].
  destruct (KoboldAIPollResponse.Generations st); exact I.
Qed.

Lemma chatCompletionHandler_after_call r tr chatReq st perr tr1 :
  jsonDecodeChatRequest L (Request.Body r) = inr chatReq ->
  evaluates w
    (callKoboldAPI L (convertOpenAIChatRequestToKobold chatReq) (apiKeyOf L r))
    tr (Returned (st, perr) tr1) ->
  evaluates w (chatCompletionHandler L r) tr (chatReplyOutcome w st perr tr1).
Proof.
  intros Hdec Hcall. unfold chatCompletionHandler. rewrite Hdec.
  eapply evaluates_bind; [exact Hcall | | apply chatReplyOutcome_final].
  unfold chatReplyOutcome. destruct perr as [err|].
  - eapply evaluates_do_bind; [reflexivity | | exact I].
    apply evaluates_intro with (n := 2); [|exact I].
    simpl. now rewrite <- app_assoc.
  - destruct (KoboldAIPollResponse.Generations st) as [|g rest] eqn:Hg.
    + apply evaluates_bind_panicked. now apply convertChat_panics.
    + eapply evaluates_bind;
        [apply (convertChat_evaluates w st g rest tr1 Hg) | | exact I].
      fold (chatResponseFor w tr1 g).
      eapply evaluates_do_bind; [reflexivity | | exact I].
      eapply evaluates_do_bind; [reflexivity | | exact I].
      apply evaluates_intro with (n := 2); [|exact I].
      simpl. now rewrite <- !app_assoc.
Qed.

Lemma completionHandler_after_call r tr completionReq st perr tr1 :
  jsonDecodeCompletionRequest L (Request.Body r) = inr completionReq ->
  evaluates w
    (callKoboldAPI L (convertOpenAICompletionRequestToKobold completionReq)
       (apiKeyOf L r))
    tr (Returned (st, perr) tr1) ->
  evaluates w (completionHandler L r) tr (completionReplyOutcome w st perr tr1).
Proof.
  intros Hdec Hcall. unfold completionHandler. rewrite Hdec.
  eapply evaluates_bind; [exact Hcall | | apply completionReplyOutcome_final].
  unfold completionReplyOutcome. destruct perr as [err|].
  - eapply evaluates_do_bind; [reflexivity | | exact I].
    apply evaluates_intro with (n := 2); [|exact I].
    simpl. now rewrite <- app_assoc.
  - destruct (KoboldAIPollResponse.Generations st) as [|g rest] eqn:Hg.
    + apply evaluates_bind_panicked. now apply convertCompletion_panics.
    + eapply evaluates_bind;
        [apply (convertCompletion_evaluates w st g rest tr1 Hg) | | exact I].
      fold (completionResponseFor w tr1 g).
      apply evaluates_intro with (n := 2); [|exact I].
      simpl. now rewrite <- !app_assoc.
Qed.

(** Every run of the chat handler that ends: the body did not decode, or
    the client returned and the handler replied to its result. *)
Lemma chatCompletionHandler_inv r fuel tr o :
  run w fuel (chatCompletionHandler L r) tr = o -> final o ->
  (exists err,
      jsonDecodeChatRequest L (Request.Body r) = inl err
      /\ o = Returned tt
               (tr ++ [ev (Fprintf Stderr "Error decoding request body: %v"
                             [FErr err]);
                       ev (HttpError err 400)])%list)
  \/ (exists chatReq st perr tr1,
         jsonDecodeChatRequest L (Request.Body r) = inr chatReq
         /\ run w fuel
              (callKoboldAPI L (convertOpenAIChatRequestToKobold chatReq)
                 (apiKeyOf L r)) tr
            = Returned (st, perr) tr1
         /\ o = chatReplyOutcome w st perr tr1).
Proof.
  intros Hrun Hf.
  destruct (jsonDecodeChatRequest L (Request.Body r)) as [err|chatReq] eqn:Hdec.
  - left. exists err. split; [reflexivity|].
    unfold chatCompletionHandler in Hrun. rewrite Hdec in Hrun.
    assert (H3 : run w 3
                   (do (Fprintf Stderr "Error decoding request body: %v"
                          [FErr err]);;
                    do (HttpError err StatusBadRequest)) tr
                 = Returned tt
                     ((tr ++ [ev (Fprintf Stderr
                                    "Error decoding request body: %v"
                                    [FErr err])])
                        ++ [ev (HttpError err 400)])%list)
      by reflexivity.
    rewrite <- app_assoc in H3.
    exact (run_deterministic _ _ _ _ _ _ _ _ Hrun Hf H3 I).
  - right.
    assert (Hrun' := Hrun).
    unfold chatCompletionHandler in Hrun'. rewrite Hdec in Hrun'.
    destruct (run_bind_inv _ _ _ _ _ _ _ _ Hrun' Hf)
      as [([st perr] & tr1 & Hcall & _)|(tr1 & Hcall & _)].
    + exists chatReq, st, perr, tr1. split; [reflexivity|]. split; [exact Hcall|].
      destruct (evaluates_run _ _ _ _ _
                  (chatCompletionHandler_after_call r tr chatReq st perr tr1 Hdec
                     (evaluates_intro _ _ _ _ _ _ Hcall I))) as [m Hm].
      exact (run_deterministic _ _ _ _ _ _ _ _ Hrun Hf Hm
               (chatReplyOutcome_final st perr tr1)).
    + exfalso. revert Hcall.
      apply emits_never_panics with (P := isClientEvent).
      * apply clientEvent_not_panic.
      * apply callKoboldAPI_emits.
Qed.

Lemma completionHandler_inv r fuel tr o :
  run w fuel (completionHandler L r) tr = o -> final o ->
  (exists err,
      jsonDecodeCompletionRequest L (Request.Body r) = inl err
      /\ o = Returned tt
               (tr ++ [ev (Fprintln Stderr [FErr err]);
                       ev (HttpError err 400)])%list)
  \/ (exists completionReq st perr tr1,
         jsonDecodeCompletionRequest L (Request.Body r) = inr completionReq
         /\ run w fuel
              (callKoboldAPI L
                 (convertOpenAICompletionRequestToKobold completionReq)
                 (apiKeyOf L r)) tr
            = Returned (st, perr) tr1
         /\ o = completionReplyOutcome w st perr tr1).
Proof.
  intros Hrun Hf.
  destruct (jsonDecodeCompletionRequest L (Request.Body r))
    as [err|completionReq] eqn:Hdec.
  - left. exists err. split; [reflexivity|].
    unfold completionHandler in Hrun. rewrite Hdec in Hrun.
    assert (H3 : run w 3
                   (do (Fprintln Stderr [FErr err]);;
                    do (HttpError err StatusBadRequest)) tr
                 = Returned tt
                     ((tr ++ [ev (Fprintln Stderr [FErr err])])
                        ++ [ev (HttpError err 400)])%list)
      by reflexivity.
    rewrite <- app_assoc in H3.
    exact (run_deterministic _ _ _ _ _ _ _ _ Hrun Hf H3 I).
  - right.
    assert (Hrun' := Hrun).
    unfold completionHandler in Hrun'. rewrite Hdec in Hrun'.
    destruct (run_bind_inv _ _ _ _ _ _ _ _ Hrun' Hf)
      as [([st perr] & tr1 & Hcall & _)|(tr1 & Hcall & _)].
    + exists completionReq, st, perr, tr1.
      split; [reflexivity|]. split; [exact Hcall|].
      destruct (evaluates_run _ _ _ _ _
                  (completionHandler_after_call r tr completionReq st perr tr1
                     Hdec (evaluates_intro _ _ _ _ _ _ Hcall I))) as [m Hm].
      exact (run_deterministic _ _ _ _ _ _ _ _ Hrun Hf Hm
               (completionReplyOutcome_final st perr tr1)).
    + exfalso. revert Hcall.
      apply emits_never_panics with (P := isClientEvent).
      * apply clientEvent_not_panic.
      * apply callKoboldAPI_emits.
Qed.

End Reply.

(** X13. The reply of a handler is decided by what the client returned.  If
    [callKoboldAPI] returned an error, the handler answers with
    [http.Error], the text of that error and status 500.  If it returned a
    status with generations, the handler converts the first one and encodes
    the response (the chat handler after setting the content type).  If it
    returned a status without generations, the handler panics in the
    conversion. *)
Theorem handlers_reply_to_the_result
    (L : GoLib) (w : World) (r : Request.t) (tr : trace)
    (st : koboldAIPollResponse) (perr : option error) (tr1 : trace) :
  (forall chatReq,
     jsonDecodeChatRequest L (Request.Body r) = inr chatReq ->
     evaluates w
       (callKoboldAPI L (convertOpenAIChatRequestToKobold chatReq)
          (apiKeyOf L r))
       tr (Returned (st, perr) tr1) ->
     evaluates w (chatCompletionHandler L r) tr
       (chatReplyOutcome w st perr tr1))
  /\ (forall completionReq,
        jsonDecodeCompletionRequest L (Request.Body r) = inr completionReq ->
        evaluates w
          (callKoboldAPI L
             (convertOpenAICompletionRequestToKobold completionReq)
             (apiKeyOf L r))
          tr (Returned (st, perr) tr1) ->
        evaluates w (completionHandler L r) tr
          (completionReplyOutcome w st perr tr1)).
Proof.
  split.
  - intros chatReq. apply chatCompletionHandler_after_call.
  - intros completionReq. apply completionHandler_after_call.
Qed.

Lemma handlers_reply_to_the_result_witness :
  evaluates testWorld (chatCompletionHandler testLib (Request.mk [] "chat")) []
    (chatReplyOutcome testWorld
       (testStatus true false [testGeneration "World"]) None testChatCallRun)
  /\ evaluates downWorld
       (completionHandler testLib (Request.mk [] "completion")) []
       (Returned tt
          (traceOf
             (run downWorld 40
                (callKoboldAPI testLib
                   (KoboldAIRequest.mk "Hi" ["m"] false (Params.mk 1024 50))
                   defaultAPIKey) [])
           ++ [ev (Fprintln Stderr [FErr "dial tcp: connection refused"]);
               ev (HttpError "dial tcp: connection refused" 500)])%list).
Proof.
  split.
  - apply (proj1 (handlers_reply_to_the_result testLib testWorld
                    (Request.mk [] "chat") []
                    (testStatus true false [testGeneration "World"]) None
                    testChatCallRun)
             (OpenAIChatRequest.mk "m" [OpenAIChatMessage.mk "user" "Hi"])).
    + reflexivity.
    + apply evaluates_intro with (n := 40); [|exact I].
      vm_compute. reflexivity.
  - apply (proj2 (handlers_reply_to_the_result testLib downWorld
                    (Request.mk [] "completion") []
                    KoboldAIPollResponse.zero
                    (Some "dial tcp: connection refused")
                    (traceOf
                       (run downWorld 40
                          (callKoboldAPI testLib
                             (KoboldAIRequest.mk "Hi" ["m"] false
                                (Params.mk 1024 50))
                             defaultAPIKey) [])))
             (OpenAICompletionRequest.mk "m" "Hi" 50
                (S754_zero false) (S754_zero false) 0 false None [])).
    + reflexivity.
    + apply evaluates_intro with (n := 40); [|exact I].
      vm_compute. reflexivity.
Defined.

Lemma clientEvent_not_error (a : event) :
  isClientEvent a = true -> isHttpError a = false.
Proof. destruct a as [X []]; simpl; intros H; (discriminate || auto). Qed.

Section Once.
Context (L : GoLib) (w : World).

(** The events of a call of the client that returned hold no reply. *)
Lemma callKoboldAPI_returned_silent koboldReq apiKey fuel x tr1 :
  run w fuel (callKoboldAPI L koboldReq apiKey) [] = Returned x tr1 ->
  count isHttpError tr1 = 0 /\ count isEncode tr1 = 0
  /\ count isHeaderSet tr1 = 0 /\ count isReplyEvent tr1 = 0.
Proof.
  intros Hcall.
  pose proof (callKoboldAPI_emits L w koboldReq apiKey []) as Hemits.
  pose proof (emits_keeps_count w _ isClientEvent isHttpError _ fuel []
                clientEvent_not_error Hemits) as H1.
  pose proof (emits_keeps_count w _ isClientEvent isEncode _ fuel []
                (fun a Ha => proj2 (clientEvent_not_reply a Ha)) Hemits) as H2.
  pose proof (emits_keeps_count w _ isClientEvent isHeaderSet _ fuel []
                (fun a Ha => proj1 (clientEvent_not_reply a Ha)) Hemits) as H3.
  pose proof (emits_keeps_count w _ isClientEvent isReplyEvent _ fuel []
                clientEvent_not_written Hemits) as H4.
  rewrite Hcall in H1, H2, H3, H4. auto.
Qed.

Lemma reply_shape_of_chat st perr tr1 tr :
  count isHttpError tr1 = 0 -> count isEncode tr1 = 0 ->
  count isHeaderSet tr1 = 0 ->
  chatReplyOutcome w st perr tr1 = Returned tt tr ->
  exists pre last,
    tr = (pre ++ [last])%list
    /\ count isHttpError pre = 0
    /\ count isEncode pre = 0
    /\ ((exists msg code,
            last = ev (HttpError msg code)
            /\ (code = 400 \/ code = 500)%Z
            /\ count isHeaderSet pre = 0)
        \/ exists p, last = ev (Encode p)).
Proof.
  intros H1 H2 H3. unfold chatReplyOutcome.
  destruct perr as [err|].
  - intros Ho. injection Ho as <-.
    exists (tr1 ++ [ev (Fprintf Stderr "Error calling Kobold API: %v"
                         [FErr err])])%list,
      (ev (HttpError err 500)).
    rewrite <- app_assoc. split; [reflexivity|].
    rewrite !count_snoc_false by reflexivity.
    repeat split; auto. left. exists err, 500%Z. auto.
  - destruct (KoboldAIPollResponse.Generations st) as [|g rest]; [discriminate|].
    intros Ho. injection Ho as <-.
    exists (tr1 ++ [ev NewUUID; ev TimeNowUnix;
                    ev (Fprintln Stdout [FChatResp (chatResponseFor w tr1 g)]);
                    ev (HeaderSet "Content-Type" "application/json")])%list,
      (ev (Encode (ChatPayload (chatResponseFor w tr1 g)))).
    rewrite <- app_assoc. split; [reflexivity|].
    rewrite !count_app, H1, H2.
    repeat split; auto. right. eauto.
Qed.

Lemma reply_shape_of_completion st perr tr1 tr :
  count isHttpError tr1 = 0 -> count isEncode tr1 = 0 ->
  count isHeaderSet tr1 = 0 ->
  completionReplyOutcome w st perr tr1 = Returned tt tr ->
  exists pre last,
    tr = (pre ++ [last])%list
    /\ count isHttpError pre = 0
    /\ count isEncode pre = 0
    /\ ((exists msg code,
            last = ev (HttpError msg code)
            /\ (code = 400 \/ code = 500)%Z
            /\ count isHeaderSet pre = 0)
        \/ exists p, last = ev (Encode p)).
Proof.
  intros H1 H2 H3. unfold completionReplyOutcome.
  destruct perr as [err|].
  - intros Ho. injection Ho as <-.
    exists (tr1 ++ [ev (Fprintln Stderr [FErr err])])%list,
      (ev (HttpError err 500)).
    rewrite <- app_assoc. split; [reflexivity|].
    rewrite !count_snoc_false by reflexivity.
    repeat split; auto. left. exists err, 500%Z. auto.
  - destruct (KoboldAIPollResponse.Generations st) as [|g rest]; [discriminate|].
    intros Ho. injection Ho as <-.
    exists (tr1 ++ [ev NewUUID; ev TimeNowUnix])%list,
      (ev (Encode (CompletionPayload (completionResponseFor w tr1 g)))).
    rewrite <- app_assoc. split; [reflexivity|].
    rewrite !count_app, H1, H2.
    repeat split; auto. right. eauto.
Qed.

End Once.

(** X14. A handler that returns has answered exactly once.  In every run of
    either handler that returns, whatever the libraries and the horde
    answer, the last event is the one reply: either [http.Error] with
    status 400 or 500, and then no header was set, or the encoding of a
    response; before it the handler has neither called [http.Error] nor
    encoded anything. *)
Theorem handlers_reply_exactly_once
    (L : GoLib) (w : World) (r : Request.t) (fuel : nat) (tr : trace) :
  run w fuel (chatCompletionHandler L r) [] = Returned tt tr
  \/ run w fuel (completionHandler L r) [] = Returned tt tr ->
  exists pre last,
    tr = (pre ++ [last])%list
    /\ count isHttpError pre = 0
    /\ count isEncode pre = 0
    /\ ((exists msg code,
            last = ev (HttpError msg code)
            /\ (code = 400 \/ code = 500)%Z
            /\ count isHeaderSet pre = 0)
        \/ exists p, last = ev (Encode p)).
Proof.
  intros [Hrun|Hrun].
  - destruct (chatCompletionHandler_inv L w r fuel [] _ Hrun I)
      as [(err & _ & Ho)|(chatReq & st & perr & tr1 & _ & Hcall & Ho)].
    + injection Ho as ->.
      exists [ev (Fprintf Stderr "Error decoding request body: %v" [FErr err])],
        (ev (HttpError err 400)).
      repeat split. left. exists err, 400%Z. auto.
    + destruct (callKoboldAPI_returned_silent L w _ _ _ _ _ Hcall)
        as (H1 & H2 & H3 & _).
      now apply (reply_shape_of_chat w st perr tr1).
  - destruct (completionHandler_inv L w r fuel [] _ Hrun I)
      as [(err & _ & Ho)|(completionReq & st & perr & tr1 & _ & Hcall & Ho)].
    + injection Ho as ->.
      exists [ev (Fprintln Stderr [FErr err])], (ev (HttpError err 400)).
      repeat split. left. exists err, 400%Z. auto.
    + destruct (callKoboldAPI_returned_silent L w _ _ _ _ _ Hcall)
        as (H1 & H2 & H3 & _).
      now apply (reply_shape_of_completion w st perr tr1).
Qed.

Lemma handlers_reply_exactly_once_witness :
  exists pre last,
    testChatRun = (pre ++ [last])%list
    /\ count isHttpError pre = 0
    /\ count isEncode pre = 0
    /\ ((exists msg code,
            last = ev (HttpError msg code)
            /\ (code = 400 \/ code = 500)%Z
            /\ count isHeaderSet pre = 0)
        \/ exists p, last = ev (Encode p)).
Proof.
  apply (handlers_reply_exactly_once testLib testWorld
           (Request.mk [] "chat") 40 testChatRun).
  left. vm_compute. reflexivity.
Defined.

(** X15. The one way a handler can panic.  In every run of either handler
    that panics, whatever the libraries and the horde answer, the client had
    returned without error a status that has [done] set and no generations;
    the panic is the index-out-of-range panic of the conversion, it follows
    the client's events at once, and nothing has been written to the
    response. *)
Theorem handlers_panic_only_without_generations
    (L : GoLib) (w : World) (r : Request.t) (fuel : nat) (tr : trace) :
  run w fuel (chatCompletionHandler L r) [] = Panicked tr
  \/ run w fuel (completionHandler L r) [] = Panicked tr ->
  exists koboldReq st tr1,
    run w fuel (callKoboldAPI L koboldReq (apiKeyOf L r)) []
    = Returned (st, None) tr1
    /\ KoboldAIPollResponse.Done st = true
    /\ KoboldAIPollResponse.Generations st = []
    /\ tr = (tr1 ++ [indexPanic])%list
    /\ count isReplyEvent tr = 0.
Proof.
  intros [Hrun|Hrun].
  - destruct (chatCompletionHandler_inv L w r fuel [] _ Hrun I)
      as [(err & _ & Ho)|(chatReq & st & perr & tr1 & _ & Hcall & Ho)];
      [discriminate|].
    unfold chatReplyOutcome in Ho.
    destruct perr as [err|]; [discriminate|].
    destruct (KoboldAIPollResponse.Generations st) as [|g rest] eqn:Hg;
      [|discriminate].
    injection Ho as ->.
    destruct (callKoboldAPI_invariant L w _ _ _ _ _ _ _ Hcall)
      as (ext & _ & _ & _ & _ & Hdone & _).
    destruct (callKoboldAPI_returned_silent L w _ _ _ _ _ Hcall)
      as (_ & _ & _ & H4).
    exists (convertOpenAIChatRequestToKobold chatReq), st, tr1.
    repeat split; auto.
    now rewrite count_snoc_false.
  - destruct (completionHandler_inv L w r fuel [] _ Hrun I)
      as [(err & _ & Ho)|(completionReq & st & perr & tr1 & _ & Hcall & Ho)];
      [discriminate|].
    unfold completionReplyOutcome in Ho.
    destruct perr as [err|]; [discriminate|].
    destruct (KoboldAIPollResponse.Generations st) as [|g rest] eqn:Hg;
      [|discriminate].
    injection Ho as ->.
    destruct (callKoboldAPI_invariant L w _ _ _ _ _ _ _ Hcall)
      as (ext & _ & _ & _ & _ & Hdone & _).
    destruct (callKoboldAPI_returned_silent L w _ _ _ _ _ Hcall)
      as (_ & _ & _ & H4).
    exists (convertOpenAICompletionRequestToKobold completionReq), st, tr1.
    repeat split; auto.
    now rewrite count_snoc_false.
Qed.

Lemma handlers_panic_only_without_generations_witness :
  exists koboldReq st tr1,
    run emptyWorld 40 (callKoboldAPI testLib koboldReq
                         (apiKeyOf testLib (Request.mk [] "chat"))) []
    = Returned (st, None) tr1
    /\ KoboldAIPollResponse.Done st = true
    /\ KoboldAIPollResponse.Generations st = []
    /\ testPanicRun = (tr1 ++ [indexPanic])%list
    /\ count isReplyEvent testPanicRun = 0.
Proof.
  apply (handlers_panic_only_without_generations testLib emptyWorld
           (Request.mk [] "chat") 40 testPanicRun).
  left. vm_compute. reflexivity.
Defined.

(** ** A request served from end to end *)

Section EndToEnd.
Context (L : GoLib) (w : World).

Lemma callKoboldAPI_job koboldReq apiKey req resp job turns resp' st :
  jobSucceeds L w koboldReq apiKey req resp job turns resp' st ->
  evaluates w (callKoboldAPI L koboldReq apiKey) []
    (Returned (st, None)
       (jobTrace L koboldReq apiKey req resp job turns resp' st)).
Proof.
  intros ((reqBody & Hmarshal & Hreq) & Hdo & Hdec & Hturns & Hget & Hpoll & Hdone).
  set (url := koboldStatusURL ++ KoboldAIAsyncResponse.ID job).
  set (pre := submitEvents koboldReq (submitted L req apiKey) job).
  assert (Hcount : count isGet pre = 0) by reflexivity.
  replace (jobTrace L koboldReq apiKey req resp job turns resp' st)
    with ((((pre ++ turnsTrace url turns) ++ turnEvents url st)
             ++ closeEvents (resp' :: deferredOf turns))
            ++ pollErrorEvents None ++ [ev (BodyClose resp)])%list
    by (unfold jobTrace; fold url; fold pre; cbn [pollErrorEvents];
        now rewrite <- !app_assoc).
  apply (callKoboldAPI_after_submit L w koboldReq apiKey [] reqBody req
           resp job st None); auto.
  change ([] ++ submitEvents koboldReq (submitted L req apiKey) job)%list
    with pre.
  apply pollKoboldAPI_leaves with (turns := turns).
  - rewrite Hcount. exact Hturns.
  - apply pollTurn_done; auto.
    rewrite count_app, Hcount.
    destruct (count_turnsTrace url turns) as (-> & _).
    exact Hget.
Qed.

Lemma jobTrace_counts koboldReq apiKey req resp job turns resp' st :
  count isNewUUID (jobTrace L koboldReq apiKey req resp job turns resp' st) = 0
  /\ count isTimeNow (jobTrace L koboldReq apiKey req resp job turns resp' st) = 0
  /\ count isPost (jobTrace L koboldReq apiKey req resp job turns resp' st) = 1
  /\ count isGet (jobTrace L koboldReq apiKey req resp job turns resp' st)
     = S (List.length turns).
Proof.
  unfold jobTrace.
  assert (Hturns : forall f,
             (forall url st0, count f (turnEvents url st0) = 0) ->
             count f (turnsTrace
                        (koboldStatusURL ++ KoboldAIAsyncResponse.ID job) turns)
             = 0).
  { intros f Hf. unfold turnsTrace.
    induction turns as [|turn turns' IH]; [reflexivity|].
    cbn [flat_map]. now rewrite count_app, Hf, IH. }
  assert (Hclose : forall f ds,
             (forall x, f (ev (BodyClose x)) = false) ->
             count f (closeEvents ds) = 0).
  { intros f ds Hf. unfold closeEvents, count.
    induction ds as [|d ds IH]; [reflexivity|].
    cbn [map filter]. now rewrite Hf. }
  destruct (count_turnsTrace
              (koboldStatusURL ++ KoboldAIAsyncResponse.ID job) turns)
    as (Hg & _).
  destruct (count_closeEvents (resp' :: deferredOf turns)) as (_ & Hcg & _).
  rewrite !count_app.
  rewrite !(Hturns isNewUUID), !(Hturns isTimeNow), !(Hturns isPost)
    by reflexivity.
  rewrite !(Hclose isNewUUID), !(Hclose isTimeNow), !(Hclose isPost)
    by reflexivity.
  rewrite Hg, Hcg.
  repeat split; cbn; lia.
Qed.

End EndToEnd.

(** X16. A request served from end to end.  When the body decodes, the
    horde accepts the job, answers the status GETs with the unfinished
    statuses of [turns] and then with a finished status whose first
    generation is [g], the chat handler returns after exactly these events:
    the client's (one POST, one GET per status, all bodies closed), a uuid
    and the time, the print of the response, the content type, and the
    encoding of a chat response whose content is the text of [g], whose id
    is the first uuid and whose creation time is the first reading of the
    clock.  The completion handler does the same without the print and the
    content type, with a completion response. *)
Theorem handlers_serve_a_finished_job
    (L : GoLib) (w : World) (r : Request.t)
    (req : httpRequest) (resp : httpResponse) (job : koboldAIAsyncResponse)
    (turns : list (httpResponse * koboldAIPollResponse))
    (resp' : httpResponse) (st : koboldAIPollResponse)
    (g : generation) (rest : list generation) :
  KoboldAIPollResponse.Generations st = g :: rest ->
  (forall chatReq,
     jsonDecodeChatRequest L (Request.Body r) = inr chatReq ->
     jobSucceeds L w (convertOpenAIChatRequestToKobold chatReq) (apiKeyOf L r)
       req resp job turns resp' st ->
     evaluates w (chatCompletionHandler L r) []
       (Returned tt
          (jobTrace L (convertOpenAIChatRequestToKobold chatReq) (apiKeyOf L r)
             req resp job turns resp' st
           ++ [ev NewUUID;
               ev TimeNowUnix;
               ev (Fprintln Stdout [FChatResp (chatResponseFor w [] g)]);
               ev (HeaderSet "Content-Type" "application/json");
               ev (Encode (ChatPayload (chatResponseFor w [] g)))])%list))
  /\ (forall completionReq,
        jsonDecodeCompletionRequest L (Request.Body r) = inr completionReq ->
        jobSucceeds L w (convertOpenAICompletionRequestToKobold completionReq)
          (apiKeyOf L r) req resp job turns resp' st ->
        evaluates w (completionHandler L r) []
          (Returned tt
             (jobTrace L (convertOpenAICompletionRequestToKobold completionReq)
                (apiKeyOf L r) req resp job turns resp' st
              ++ [ev NewUUID;
                  ev TimeNowUnix;
                  ev (Encode
                        (CompletionPayload (completionResponseFor w [] g)))])%list)).
Proof.
  intros Hg. split.
  - intros chatReq Hdec Hjob.
    pose proof (chatCompletionHandler_after_call L w r [] chatReq st None _ Hdec
                  (callKoboldAPI_job L w _ _ _ _ _ _ _ _ Hjob)) as Hev.
    unfold chatReplyOutcome in Hev. rewrite Hg in Hev.
    unfold chatResponseFor in *.
    destruct (jobTrace_counts L (convertOpenAIChatRequestToKobold chatReq)
                (apiKeyOf L r) req resp job turns resp' st) as (Hu & Ht & _).
    rewrite Hu, Ht in Hev. exact Hev.
  - intros completionReq Hdec Hjob.
    pose proof (completionHandler_after_call L w r [] completionReq st None _
                  Hdec (callKoboldAPI_job L w _ _ _ _ _ _ _ _ Hjob)) as Hev.
    unfold completionReplyOutcome in Hev. rewrite Hg in Hev.
    unfold completionResponseFor in *.
    destruct (jobTrace_counts L
                (convertOpenAICompletionRequestToKobold completionReq)
                (apiKeyOf L r) req resp job turns resp' st) as (Hu & Ht & _).
    rewrite Hu, Ht in Hev. exact Hev.
Qed.


Lemma callKoboldAPI_undecodable_answer_never_polls_witness :
  evaluates badGatewayWorld
    (callKoboldAPI strictLib testKoboldReq defaultAPIKey) []
    (Returned
       (KoboldAIPollResponse.zero,
        Some "invalid character '<' looking for beginning of value")
       [ev (Fprintf Stdout ("Req: %+v" ++ nl) [FKoboldReq testKoboldReq]);
        ev (ClientDo (submitted strictLib testHttpReq defaultAPIKey));
        ev (Fprintln Stdout [FStr "Sending request to horde"]);
        ev (Fprintln Stderr
              [FSprintf "Error occurred at %s:%d: %v"
                 [FStr "main.go"; FInt 252;
                  FErr "invalid character '<' looking for beginning of value"]]);
        ev (BodyClose (HttpResponse.mk 502 "<html>"))]).
Proof.
  apply (callKoboldAPI_undecodable_answer_never_polls
           strictLib badGatewayWorld testKoboldReq defaultAPIKey [] "Hi"
           testHttpReq (HttpResponse.mk 502 "<html>")
           "invalid character '<' looking for beginning of value");
    reflexivity.
Defined.

Lemma callKoboldAPI_returns_what_the_poll_returns_witness :
  evaluates refusingWorld
    (callKoboldAPI testLib testKoboldReq defaultAPIKey) []
    (Returned
       (pollOutcome (testStatus true false [testGeneration "World"]) None)
       (testRefusedPollRun ++ pollErrorEvents None
          ++ [ev (BodyClose (HttpResponse.mk 403 ""))])%list).
Proof.
  apply (callKoboldAPI_returns_what_the_poll_returns
           testLib refusingWorld testKoboldReq defaultAPIKey [] "Hi"
           testHttpReq (HttpResponse.mk 403 "")
           (KoboldAIAsyncResponse.mk "" "")
           (testStatus true false [testGeneration "World"]) None
           testRefusedPollRun); try reflexivity.
  apply evaluates_intro with (n := 20); [|exact I].
  vm_compute. reflexivity.
Defined.

Lemma handlers_serve_a_finished_job_witness :
  evaluates testWorld (chatCompletionHandler testLib (Request.mk [] "chat")) []
    (Returned tt
       (jobTrace testLib
          (convertOpenAIChatRequestToKobold
             (OpenAIChatRequest.mk "m" [OpenAIChatMessage.mk "user" "Hi"]))
          defaultAPIKey
          (HttpRequest.mk "POST" koboldAPIURL [] ("user: Hi" ++ nl))
          (HttpResponse.mk 200 "job-1")
          (KoboldAIAsyncResponse.mk "job-1" "")
          [(HttpResponse.mk 200 "faulted", testStatus false true [])]
          (HttpResponse.mk 200 "done")
          (testStatus true false [testGeneration "World"])
        ++ [ev NewUUID;
            ev TimeNowUnix;
            ev (Fprintln Stdout
                  [FChatResp (chatResponseFor testWorld []
                                (testGeneration "World"))]);
            ev (HeaderSet "Content-Type" "application/json");
            ev (Encode (ChatPayload (chatResponseFor testWorld []
                                       (testGeneration "World"))))])%list).
Proof.
  apply (proj1 (handlers_serve_a_finished_job testLib testWorld
                  (Request.mk [] "chat")
                  (HttpRequest.mk "POST" koboldAPIURL [] ("user: Hi" ++ nl))
                  (HttpResponse.mk 200 "job-1")
                  (KoboldAIAsyncResponse.mk "job-1" "")
                  [(HttpResponse.mk 200 "faulted", testStatus false true [])]
                  (HttpResponse.mk 200 "done")
                  (testStatus true false [testGeneration "World"])
                  (testGeneration "World") [] eq_refl)
           (OpenAIChatRequest.mk "m" [OpenAIChatMessage.mk "user" "Hi"])).
  - reflexivity.
  - split; [exists ("user: Hi" ++ nl); split; reflexivity|].
    repeat split.
Defined.

(** ** A job that never finishes *)

Section Hang.
Context (L : GoLib) (w : World).

(** A part that runs out of fuel leaves the whole out of fuel. *)
Lemma run_bind_out_of_fuel X R (t : prog X) (k : X -> prog R) n : forall tr tr',
  run w n t tr = OutOfFuel tr' ->
  run w n (ITree.bind t k) tr = OutOfFuel tr'.
Proof.
  revert t. induction n as [|n IH]; intros t tr tr' Ht.
  { simpl in *. injection Ht as <-. reflexivity. }
  rewrite run_S in Ht.
  destruct (observe t) as [r|t'|Y e h] eqn:Hobs; [discriminate| |].
  - rewrite run_observe with (t2 := Tau (ITree.bind t' k))
      by (rewrite observe_bind, Hobs; reflexivity).
    rewrite run_tau. now apply IH.
  - rewrite run_observe with (t2 := Vis e (fun y => ITree.bind (h y) k))
      by (rewrite observe_bind, Hobs; reflexivity).
    rewrite run_S. cbn [observe _observe].
    destruct (handle w tr e) as [y|]; [now apply IH | discriminate].
Qed.

(** A call of the client that returned after the job was accepted: its poll
    loop returned. *)
Lemma callKoboldAPI_inv_poll koboldReq apiKey req resp job fuel x tr' :
  jobAccepted L w koboldReq apiKey req resp job ->
  run w fuel (callKoboldAPI L koboldReq apiKey) [] = Returned x tr' ->
  exists ret tr2,
    run w fuel (pollKoboldAPI L (KoboldAIAsyncResponse.ID job))
      (submitEvents koboldReq (submitted L req apiKey) job)
    = Returned ret tr2.
Proof.
  intros ((reqBody & Hmarshal & Hreq) & Hdo & Hdec) Hrun.
  unfold callKoboldAPI in Hrun. rewrite Hmarshal, Hreq in Hrun.
  eapply run_do_bind_inv in Hrun; [|exact I|reflexivity].
  eapply run_do_bind_inv in Hrun; [|exact I|reflexivity].
  fold (submitted L req apiKey) in Hrun.
  change (count isPost ([] ++ [ev (Fprintf Stdout ("Req: %+v" ++ nl)
                                     [FKoboldReq koboldReq])])%list)
    with 0 in Hrun.
  rewrite Hdo in Hrun.
  eapply run_do_bind_inv in Hrun; [|exact I|reflexivity].
  rewrite Hdec in Hrun.
  destruct (run_bind_inv _ _ _ _ _ _ _ _ Hrun I)
    as [(ret & tr1 & Hinner & _)|(tr1 & _ & Ho)]; [|discriminate].
  eapply run_do_bind_inv in Hinner; [|exact I|reflexivity].
  eapply run_do_bind_inv in Hinner; [|exact I|reflexivity].
  destruct (run_bind_inv _ _ _ _ _ _ _ _ Hinner I)
    as [(ret' & tr2 & Hpoll & _)|(tr2 & _ & Ho)]; [|discriminate].
  exists ret', tr2. exact Hpoll.
Qed.

Lemma callKoboldAPI_hangs koboldReq apiKey req resp job sts fuel :
  jobAccepted L w koboldReq apiKey req resp job ->
  (forall i, decodedPoll L w
               (koboldStatusURL ++ KoboldAIAsyncResponse.ID job) sts i) ->
  (forall i, KoboldAIPollResponse.Done (sts i) = false) ->
  exists tr,
    run w fuel (callKoboldAPI L koboldReq apiKey) [] = OutOfFuel tr
    /\ count isReplyEvent tr = 0.
Proof.
  intros Hjob Hdec Hnever.
  pose proof (emits_keeps_count w _ isClientEvent isReplyEvent _ fuel []
                clientEvent_not_written
                (callKoboldAPI_emits L w koboldReq apiKey [])) as Hsilent.
  destruct (run w fuel (callKoboldAPI L koboldReq apiKey) [])
    as [x tr|tr|tr] eqn:Hrun.
  - exfalso.
    destruct (callKoboldAPI_inv_poll _ _ _ _ _ _ _ _ Hjob Hrun)
      as (ret & tr2 & Hpoll).
    destruct (pollKoboldAPI_never L w (KoboldAIAsyncResponse.ID job) fuel
                (submitEvents koboldReq (submitted L req apiKey) job) sts)
      as [tr3 Hout]; [|assumption|congruence].
    intros i. apply Hdec.
  - exfalso. revert Hrun.
    apply emits_never_panics with (P := isClientEvent).
    + apply clientEvent_not_panic.
    + apply callKoboldAPI_emits.
  - exists tr. split; [reflexivity | exact Hsilent].
Qed.

End Hang.

(** X17. No timeout.  When the horde has accepted the job and answers every
    status GET with a status that is not done (a faulted job, say), neither
    handler ever answers: however long it runs, the handler has not
    returned, has not panicked, and has written nothing to the response. *)
Theorem handlers_hang_while_the_job_is_unfinished
    (L : GoLib) (w : World) (r : Request.t)
    (req : httpRequest) (resp : httpResponse) (job : koboldAIAsyncResponse)
    (sts : nat -> koboldAIPollResponse) (fuel : nat) :
  (forall i, decodedPoll L w
               (koboldStatusURL ++ KoboldAIAsyncResponse.ID job) sts i) ->
  (forall i, KoboldAIPollResponse.Done (sts i) = false) ->
  (forall chatReq,
     jsonDecodeChatRequest L (Request.Body r) = inr chatReq ->
     jobAccepted L w (convertOpenAIChatRequestToKobold chatReq) (apiKeyOf L r)
       req resp job ->
     exists tr,
       run w fuel (chatCompletionHandler L r) [] = OutOfFuel tr
       /\ count isReplyEvent tr = 0)
  /\ (forall completionReq,
        jsonDecodeCompletionRequest L (Request.Body r) = inr completionReq ->
        jobAccepted L w (convertOpenAICompletionRequestToKobold completionReq)
          (apiKeyOf L r) req resp job ->
        exists tr,
          run w fuel (completionHandler L r) [] = OutOfFuel tr
          /\ count isReplyEvent tr = 0).
Proof.
  intros Hdec Hnever. split.
  - intros chatReq Hbody Hjob.
    destruct (callKoboldAPI_hangs L w _ _ _ _ _ sts fuel Hjob Hdec Hnever)
      as (tr & Hout & Hsilent).
    exists tr. split; [|assumption].
    unfold chatCompletionHandler. rewrite Hbody.
    now apply run_bind_out_of_fuel.
  - intros completionReq Hbody Hjob.
    destruct (callKoboldAPI_hangs L w _ _ _ _ _ sts fuel Hjob Hdec Hnever)
      as (tr & Hout & Hsilent).
    exists tr. split; [|assumption].
    unfold completionHandler. rewrite Hbody.
    now apply run_bind_out_of_fuel.
Qed.

Lemma handlers_hang_while_the_job_is_unfinished_witness :
  exists tr,
    run faultedWorld 1000 (chatCompletionHandler testLib (Request.mk [] "chat")) []
    = OutOfFuel tr
    /\ count isReplyEvent tr = 0.
Proof.
  apply (proj1 (handlers_hang_while_the_job_is_unfinished
                  testLib faultedWorld (Request.mk [] "chat")
                  (HttpRequest.mk "POST" koboldAPIURL [] ("user: Hi" ++ nl))
                  (HttpResponse.mk 200 "job-1")
                  (KoboldAIAsyncResponse.mk "job-1" "")
                  (fun _ => testStatus false true []) 1000
                  (fun i => ex_intro _ (HttpResponse.mk 200 "faulted")
                              (conj eq_refl eq_refl))
                  (fun i => eq_refl))
           (OpenAIChatRequest.mk "m" [OpenAIChatMessage.mk "user" "Hi"])).
  - reflexivity.
  - split; [exists ("user: Hi" ++ nl); split; reflexivity|].
    split; reflexivity.
Defined.
